(** * glasses firmware (src/glasses/src/main.cpp): command and framing core

    A shallow embedding of the ESP32-CAM sketch: the Bluetooth command
    handler [processCommands], the camera bring-up [initCamera], [setup]
    and the streaming cycle [loop].  The sketch talks to four devices
    (the Bluetooth serial link, the debug UART, the servo and the camera);
    they are gathered in a record [World] that every function threads
    explicitly.  Integers are [Z] with the 32-bit bounds of the target
    written out, transport bytes are [Byte.byte], Arduino [String]s are
    [string]. *)

From Stdlib Require Import ZArith NArith List Bool Lia.
From Stdlib Require Import Strings.String Strings.Ascii Strings.Byte.
Import ListNotations.

Open Scope Z_scope.

(** ** Arduino core and C library used by the sketch *)

Module Arduino.

(** Modelled from the spec: [isspace] and [isdigit] belong to the C
    library, which is not among the repository's sources; the white space
    characters are the blank and the codes 9 to 13, the digits are the
    codes 48 to 57. *)
Definition isspace (c : ascii) : bool :=
  let n := N_of_ascii c in (((9 <=? n) && (n <=? 13)) || (n =? 32))%N.

Definition isdigit (c : ascii) : bool :=
  let n := N_of_ascii c in ((48 <=? n) && (n <=? 57))%N.

Definition digit_val (c : ascii) : Z := Z.of_N (N_of_ascii c) - 48.

(** Leading white space, as skipped by [String::trim] and by [strtol]. *)
Fixpoint skip_space (s : string) : string :=
  match s with
  | EmptyString => EmptyString
  | String c s' => if isspace c then skip_space s' else s
  end.

Fixpoint drop_trailing_space (s : string) : string :=
  match s with
  | EmptyString => EmptyString
  | String c s' =>
      match drop_trailing_space s' with
      | EmptyString => if isspace c then EmptyString else String c EmptyString
      | r => String c r
      end
  end.

(** Modelled from the spec: [String::trim] belongs to the Arduino core,
    which is not among the repository's sources; surrounding white space
    is removed, inner white space is kept. *)
Definition trim (s : string) : string := drop_trailing_space (skip_space s).

(** Modelled from the spec: [String::startsWith] belongs to the Arduino
    core, which is not among the repository's sources; the first
    characters are compared byte by byte with the given prefix. *)
Fixpoint startsWith (s p : string) {struct p} : bool :=
  match p with
  | EmptyString => true
  | String a p' =>
      match s with
      | EmptyString => false
      | String b s' => Ascii.eqb b a && startsWith s' p'
      end
  end.

(** Modelled from the spec: [String::substring(from)] belongs to the
    Arduino core, which is not among the repository's sources; it is the
    text from index [from] to the end, empty when [from] is past it. *)
Fixpoint substring (from : nat) (s : string) : string :=
  match from with
  | O => s
  | S k => match s with
           | EmptyString => EmptyString
           | String _ s' => substring k s'
           end
  end.

Definition LONG_MAX : Z := 2147483647.
Definition LONG_MIN : Z := -2147483648.

Definition saturate_long (z : Z) : Z := Z.max LONG_MIN (Z.min LONG_MAX z).

Fixpoint strtol_digits (acc : Z) (s : string) : Z :=
  match s with
  | EmptyString => acc
  | String c s' =>
      if isdigit c then strtol_digits (acc * 10 + digit_val c) s' else acc
  end.

(** Modelled from the spec: [String::toInt] belongs to the Arduino core,
    which is not among the repository's sources and implements it with
    the C library's [atol]: white space is skipped, an optional sign is
    read, then decimal digits up to the first character that is not one;
    without any digit the value is 0.  A value outside the 32-bit [long]
    saturates. *)
Definition toInt (s : string) : Z :=
  match skip_space s with
  | EmptyString => 0
  | String c s' =>
      if Ascii.eqb c "-" then saturate_long (- strtol_digits 0 s')
      else if Ascii.eqb c "+" then saturate_long (strtol_digits 0 s')
      else saturate_long (strtol_digits 0 (String c s'))
  end.

(** Modelled from the spec: the [constrain(amt,low,high)] macro belongs
    to Arduino.h, which is not among the repository's sources; values
    below [low] become [low], values above [high] become [high]. *)
Definition constrain (amt low high : Z) : Z :=
  if amt <? low then low else if amt >? high then high else amt.

Definition digit_char (upper : bool) (d : Z) : ascii :=
  if d <? 10 then ascii_of_N (Z.to_N (48 + d))
  else ascii_of_N (Z.to_N ((if upper then 65 else 97) + d - 10)).

(** Modelled from the spec: [Print::printNumber] belongs to the Arduino
    core, which is not among the repository's sources.  Its digit loop
    produces the digits from the least significant one and stores each in
    front of what is already there; [fuel] is the size of the digit
    buffer. *)
Fixpoint printNumber_loop (fuel : nat) (upper : bool) (base n : Z)
    (str : string) : string :=
  match fuel with
  | O => str
  | S fuel' =>
      let str' := String (digit_char upper (n mod base)) str in
      if n / base =? 0 then str'
      else printNumber_loop fuel' upper base (n / base) str'
  end.

(** Decimal digits of a non-negative number of any size. *)
Definition decimal_digits (n : Z) : string :=
  printNumber_loop (S (Z.to_nat (Z.log2 n))) true 10 n EmptyString.

(** Decimal text of an integer, as a peer writes it in a command. *)
Definition decimal (t : Z) : string :=
  if t <? 0 then String "-" (decimal_digits (- t)) else decimal_digits t.

(** [Print::printNumber(unsigned long, base)]: the buffer holds
    [8 * sizeof(long)] digits. *)
Definition printNumber (upper : bool) (base n : Z) : string :=
  printNumber_loop 32 upper base (n mod 2 ^ 32) EmptyString.

(** [Print::print(long)] in base 10: a minus sign, then the magnitude. *)
Definition print_long (n : Z) : string :=
  if n <? 0 then String "-" (printNumber true 10 (- n))
  else printNumber true 10 n.

Definition CRLF : string := String "013" (String "010" EmptyString).

End Arduino.

Import Arduino.

(** ** Devices *)

(** A camera frame buffer ([camera_fb_t]): [buf] is the JPEG data and
    [len] the number of bytes in it. *)
Record camera_fb_t := { buf : list byte }.

Definition len (fb : camera_fb_t) : Z := Z.of_nat (List.length (buf fb)).

(** Everything the sketch reads and writes: its one global variable and
    the state of the devices around it. *)
Record World := mkWorld {
  currentServoAngle : Z;        (* the global of main.cpp *)
  servo_pin : option Z;         (* myServo: pin it is attached to *)
  servo_writes : list Z;        (* myServo: angles written, oldest first *)
  Serial_out : string;          (* debug UART: text printed so far *)
  SerialBT_rx : list byte;      (* Bluetooth: bytes received, not yet read *)
  SerialBT_tx : list byte;      (* Bluetooth: bytes written so far *)
  fb_taken : nat;               (* camera: frame buffers obtained *)
  fb_returned : nat;            (* camera: frame buffers given back *)
  delays : list Z               (* delay() calls in ms, oldest first *)
}.

Definition servoPin : Z := 14.

(** The world when the sketch starts: [int currentServoAngle = 90]. *)
Definition power_on : World :=
  mkWorld 90 None [] EmptyString [] [] 0 0 [].

Definition set_currentServoAngle (a : Z) (w : World) : World :=
  mkWorld a (servo_pin w) (servo_writes w) (Serial_out w) (SerialBT_rx w)
    (SerialBT_tx w) (fb_taken w) (fb_returned w) (delays w).

Definition myServo_attach (pin : Z) (w : World) : World :=
  mkWorld (currentServoAngle w) (Some pin) (servo_writes w) (Serial_out w)
    (SerialBT_rx w) (SerialBT_tx w) (fb_taken w) (fb_returned w) (delays w).

Definition myServo_write (a : Z) (w : World) : World :=
  mkWorld (currentServoAngle w) (servo_pin w) (servo_writes w ++ [a])
    (Serial_out w) (SerialBT_rx w) (SerialBT_tx w) (fb_taken w)
    (fb_returned w) (delays w).

Definition Serial_print (s : string) (w : World) : World :=
  mkWorld (currentServoAngle w) (servo_pin w) (servo_writes w)
    (Serial_out w ++ s)%string (SerialBT_rx w) (SerialBT_tx w) (fb_taken w)
    (fb_returned w) (delays w).

Definition Serial_println (s : string) (w : World) : World :=
  Serial_print CRLF (Serial_print s w).

Definition set_SerialBT_rx (rx : list byte) (w : World) : World :=
  mkWorld (currentServoAngle w) (servo_pin w) (servo_writes w) (Serial_out w)
    rx (SerialBT_tx w) (fb_taken w) (fb_returned w) (delays w).

(** [SerialBT.write(buffer, size)]: the bytes join the outbound stream. *)
Definition SerialBT_write (bs : list byte) (w : World) : World :=
  mkWorld (currentServoAngle w) (servo_pin w) (servo_writes w) (Serial_out w)
    (SerialBT_rx w) (SerialBT_tx w ++ bs) (fb_taken w) (fb_returned w)
    (delays w).

Definition SerialBT_print (s : string) (w : World) : World :=
  SerialBT_write (list_byte_of_string s) w.

Definition SerialBT_println (s : string) (w : World) : World :=
  SerialBT_print CRLF (SerialBT_print s w).

(** [SerialBT.available()]: the number of bytes waiting. *)
Definition SerialBT_available (w : World) : Z :=
  Z.of_nat (List.length (SerialBT_rx w)).

Definition newline : byte := "010"%byte.

(** Modelled from the spec: [Stream::readStringUntil] belongs to the
    Arduino core, which is not among the repository's sources.  Bytes are
    taken from the stream up to the terminator, which is taken too but not
    returned.  When the buffered bytes hold no terminator, the read ends
    on its time-out with all of them. *)
Fixpoint read_until (terminator : byte) (rx : list byte)
    : string * list byte :=
  match rx with
  | [] => (EmptyString, [])
  | b :: rx' =>
      if Byte.eqb b terminator then (EmptyString, rx')
      else let '(s, rest) := read_until terminator rx' in
           (String (ascii_of_byte b) s, rest)
  end.

Definition SerialBT_readStringUntil (terminator : byte) (w : World)
    : string * World :=
  let '(s, rest) := read_until terminator (SerialBT_rx w) in
  (s, set_SerialBT_rx rest w).

Definition take_fb (w : World) : World :=
  mkWorld (currentServoAngle w) (servo_pin w) (servo_writes w) (Serial_out w)
    (SerialBT_rx w) (SerialBT_tx w) (S (fb_taken w)) (fb_returned w)
    (delays w).

Definition esp_camera_fb_return (w : World) : World :=
  mkWorld (currentServoAngle w) (servo_pin w) (servo_writes w) (Serial_out w)
    (SerialBT_rx w) (SerialBT_tx w) (fb_taken w) (S (fb_returned w))
    (delays w).

Definition delay (ms : Z) (w : World) : World :=
  mkWorld (currentServoAngle w) (servo_pin w) (servo_writes w) (Serial_out w)
    (SerialBT_rx w) (SerialBT_tx w) (fb_taken w) (fb_returned w)
    (delays w ++ [ms]).

(** What the hardware answers during [setup]. *)
Record BootEnv := {
  esp_camera_init : Z;          (* esp_err_t of the camera driver *)
  esp_read_mac : list Z;        (* the six bytes of the Bluetooth MAC *)
  SerialBT_begin : bool
}.

(** What the hardware answers during one call of [loop]. *)
Record CycleEnv := {
  SerialBT_hasClient : bool;
  esp_camera_fb_get : option camera_fb_t   (* [None] is the NULL pointer *)
}.

Definition ESP_OK : Z := 0.

(** Memory image of a [uint32_t] on the little-endian target: the four
    bytes found at the address of [frameSize]. *)
Definition byte_of_Z (z : Z) : byte :=
  match Byte.of_N (Z.to_N (Z.land z 255)) with
  | Some b => b
  | None => "000"%byte
  end.

Definition uint32_bytes (n : Z) : list byte :=
  [ byte_of_Z n; byte_of_Z (Z.shiftr n 8);
    byte_of_Z (Z.shiftr n 16); byte_of_Z (Z.shiftr n 24) ].

(** The peer's reading of a header: little-endian, same width. *)
Definition uint32_of_bytes (bs : list byte) : Z :=
  match bs with
  | [b0; b1; b2; b3] =>
      Z.lor (Z.of_N (Byte.to_N b0))
        (Z.lor (Z.shiftl (Z.of_N (Byte.to_N b1)) 8)
           (Z.lor (Z.shiftl (Z.of_N (Byte.to_N b2)) 16)
              (Z.shiftl (Z.of_N (Byte.to_N b3)) 24)))
  | _ => 0
  end.

(** ** The sketch *)

(** How a call that may spin forever ends: it returns, or it has entered
    a [while (true)] loop that nothing leaves. *)
Inductive Outcome :=
| Returned (w : World)
| Spinning (w : World).

Fixpoint print_mac_bytes (btMac : list Z) (w : World) : World :=
  match btMac with
  | [] => w
  | b :: rest =>
      let w := if b <? 16 then Serial_print "0" w else w in
      let w := Serial_print (printNumber true 16 b) w in
      let w := match rest with [] => w | _ => Serial_print ":" w end in
      print_mac_bytes rest w
  end.

Definition printBTMacAddress (env : BootEnv) (w : World) : World :=
  let btMac := esp_read_mac env in
  let w := Serial_print "ESP32 Bluetooth MAC: " w in
  let w := print_mac_bytes btMac w in
  Serial_println EmptyString w.

Definition initCamera (env : BootEnv) (w : World) : Outcome :=
  let err := esp_camera_init env in
  if negb (err =? ESP_OK) then
    let w := Serial_print
               ("Camera init failed with error 0x" ++ printNumber false 16 err)
               w in
    Spinning w                      (* while (true) { delay(1000); } *)
  else Returned w.

(** One turn of the halt loop of [initCamera]. *)
Definition halt_turn (w : World) : World := delay 1000 w.

Definition processCommands (w : World) : World :=
  if negb (SerialBT_available w =? 0) then
    let '(command, w) := SerialBT_readStringUntil newline w in
    let command := trim command in
    if startsWith command "S14:" then
      let angle := toInt (substring 4 command) in
      let angle := constrain angle 0 180 in
      let w := myServo_write angle w in
      let w := set_currentServoAngle angle w in
      let w := Serial_print "Servo on GPIO14 set to " w in
      let w := Serial_println (print_long angle) w in
      let w := SerialBT_print "Servo set to " w in
      SerialBT_println (print_long angle) w
    else
      let w := Serial_print "Unknown command received: " w in
      Serial_println command w
  else w.

Definition degree_sign : string := String "194" (String "176" EmptyString).

Definition setup (env : BootEnv) (w : World) : Outcome :=
  match initCamera env w with
  | Spinning w => Spinning w
  | Returned w =>
      let w := myServo_attach servoPin w in
      let w := myServo_write (currentServoAngle w) w in
      let w := Serial_println
                 ("Servo on GPIO14 initialized at 90" ++ degree_sign) w in
      let w := printBTMacAddress env w in
      if negb (SerialBT_begin env) then
        Returned
          (Serial_println "An error occurred initializing Bluetooth" w)
      else
        Returned
          (Serial_println "Bluetooth initialized. Waiting for connection..."
             w)
  end.

(** The bytes [loop] writes for one captured frame: the header, then the
    first [frameSize] bytes of the buffer. *)
Definition send_frame (fb : camera_fb_t) (w : World) : World :=
  let frameSize := len fb mod 2 ^ 32 in
  let w := SerialBT_write (uint32_bytes frameSize) w in
  SerialBT_write (firstn (Z.to_nat frameSize) (buf fb)) w.

Definition loop (env : CycleEnv) (w : World) : World :=
  if negb (SerialBT_hasClient env) then
    let w := Serial_println "No Bluetooth client connected. Waiting..." w in
    delay 500 w
  else
    let w := processCommands w in
    match esp_camera_fb_get env with
    | None =>
        let w := Serial_println "Camera capture failed" w in
        delay 1000 w
    | Some fb =>
        let w := take_fb w in
        let w := send_frame fb w in
        let w := esp_camera_fb_return w in
        delay 1000 w
    end.

(** ** The running firmware

    The Arduino runtime calls [setup] once and then [loop] for ever.  The
    environment also delivers bytes from the peer at any time; they are
    buffered by the Bluetooth stack whatever the sketch is doing. *)

Inductive Phase := Boot | Halted | Running.

Inductive Event :=
| Tick (env : CycleEnv)            (* the processor runs the next piece *)
| Receive (bytes : list byte).     (* the peer's bytes reach the buffer *)

Definition SerialBT_receive (bytes : list byte) (w : World) : World :=
  set_SerialBT_rx (SerialBT_rx w ++ bytes) w.

Definition step (boot : BootEnv) (ev : Event) (s : Phase * World)
    : Phase * World :=
  let '(ph, w) := s in
  match ev with
  | Receive bytes => (ph, SerialBT_receive bytes w)
  | Tick env =>
      match ph with
      | Boot => match setup boot w with
                | Returned w' => (Running, w')
                | Spinning w' => (Halted, w')
                end
      | Halted => (Halted, halt_turn w)
      | Running => (Running, loop env w)
      end
  end.

Definition run (boot : BootEnv) (evs : list Event) (s : Phase * World)
    : Phase * World :=
  fold_left (fun s ev => step boot ev s) evs s.

Inductive reachable (boot : BootEnv) : Phase * World -> Prop :=
| reachable_power_on : reachable boot (Boot, power_on)
| reachable_step s ev :
    reachable boot s -> reachable boot (step boot ev s).

(** Consecutive calls of [loop], one per environment answer. *)
Definition cycles (envs : list CycleEnv) (w : World) : World :=
  fold_left (fun w env => loop env w) envs w.

Definition active (fb : option camera_fb_t) : CycleEnv :=
  {| SerialBT_hasClient := true; esp_camera_fb_get := fb |}.

Definition idle (fb : option camera_fb_t) : CycleEnv :=
  {| SerialBT_hasClient := false; esp_camera_fb_get := fb |}.

Definition bytes (s : string) : list byte := list_byte_of_string s.

Definition with_rx (s : string) : World :=
  SerialBT_receive (bytes s) power_on.

Definition LF : string := String "010" EmptyString.

(** ** Predicates used in the statements *)

Fixpoint all_chars (p : ascii -> bool) (s : string) : bool :=
  match s with
  | EmptyString => true
  | String c s' => p c && all_chars p s'
  end.

(** The text holds no line feed, so it is one line for [read_until]. *)
Definition one_line (s : string) : bool :=
  all_chars (fun c => negb (Ascii.eqb c "010")) s.

Definition first_is_digit (s : string) : bool :=
  match s with
  | EmptyString => false
  | String c _ => isdigit c
  end.


(** The bytes of one frame on the link, as [send_frame] writes them. *)
Definition frame_bytes (fb : camera_fb_t) : list byte :=
  uint32_bytes (len fb mod 2 ^ 32)
    ++ firstn (Z.to_nat (len fb mod 2 ^ 32)) (buf fb).

(** Bytes delivered by the peer during a sequence of events. *)
Fixpoint received (evs : list Event) : list byte :=
  match evs with
  | [] => []
  | Receive bs :: evs' => bs ++ received evs'
  | Tick _ :: evs' => received evs'
  end.

(** Two worlds that differ at most in the debug output and in the time
    spent waiting. *)
Definition same_link (w1 w2 : World) : Prop :=
  currentServoAngle w1 = currentServoAngle w2 /\
  servo_pin w1 = servo_pin w2 /\
  servo_writes w1 = servo_writes w2 /\
  SerialBT_rx w1 = SerialBT_rx w2 /\
  SerialBT_tx w1 = SerialBT_tx w2.

(** The acknowledgment line for an applied angle. *)
Definition acknowledgment (angle : Z) : list byte :=
  bytes ("Servo set to " ++ decimal angle ++ CRLF).

(** An event during which no peer is attached: bytes may still arrive,
    and every call of [loop] finds [hasClient()] false. *)
Definition peerless (ev : Event) : Prop :=
  match ev with
  | Tick env => SerialBT_hasClient env = false
  | Receive _ => True
  end.

(** The commanded angle and every angle sent to the servo are in range. *)
Definition angle_ok (w : World) : Prop :=
  0 <= currentServoAngle w <= 180 /\
  Forall (fun a => 0 <= a <= 180) (servo_writes w).

(** The parts of the world that only a returning [setup] or a running
    [loop] can change. *)
Definition untouched (w0 w : World) : Prop :=
  SerialBT_tx w = SerialBT_tx w0 /\
  servo_pin w = servo_pin w0 /\
  servo_writes w = servo_writes w0 /\
  currentServoAngle w = currentServoAngle w0 /\
  fb_taken w = fb_taken w0 /\
  fb_returned w = fb_returned w0.

(** Two upper-case hexadecimal digits of a byte. *)
Definition hex_pair (b : Z) : string :=
  String (digit_char true (b / 16))
    (String (digit_char true (b mod 16)) EmptyString).

Fixpoint join_colon (parts : list string) : string :=
  match parts with
  | [] => EmptyString
  | [x] => x
  | x :: rest => (x ++ String ":" (join_colon rest))%string
  end.

(** What [printBTMacAddress] prints in front of a byte below 16. *)
Definition mac_byte_text (b : Z) : string :=
  ((if (b <? 16)%Z then "0" else EmptyString) ++ printNumber true 16 b)%string.

(** White space that does not end a line: blanks, tabs, carriage
    returns and the like. *)
Definition blanks (s : string) : bool :=
  all_chars (fun c => isspace c && negb (Ascii.eqb c "010")) s.

(** Set-angle commands for the given targets, one per line. *)
Fixpoint command_lines (ts : list Z) : list byte :=
  match ts with
  | [] => []
  | t :: ts' =>
      bytes ("S14:" ++ decimal t) ++ newline :: command_lines ts'
  end.


(** Number of times the processor ran during a sequence of events. *)
Fixpoint ticks (evs : list Event) : nat :=
  match evs with
  | [] => O
  | Tick _ :: evs' => S (ticks evs')
  | Receive _ :: evs' => ticks evs'
  end.

(** ** Strings *)

Section StringFacts.

Local Open Scope string_scope.

Lemma append_empty_r (s : string) : s ++ EmptyString = s.
Proof. induction s as [|c s IH]; simpl; [reflexivity | now rewrite IH]. Qed.

Lemma append_assoc (s1 s2 s3 : string) : (s1 ++ s2) ++ s3 = s1 ++ (s2 ++ s3).
Proof. induction s1 as [|c s1 IH]; simpl; [reflexivity | now rewrite IH]. Qed.

Lemma length_append (s1 s2 : string) :
  length (s1 ++ s2) = (length s1 + length s2)%nat.
Proof. induction s1 as [|c s1 IH]; simpl; [reflexivity | now rewrite IH]. Qed.

Lemma all_chars_app p s1 s2 :
  all_chars p (s1 ++ s2) = all_chars p s1 && all_chars p s2.
Proof.
  induction s1 as [|c s1 IH]; simpl; [reflexivity|].
  now rewrite IH, andb_assoc.
Qed.

Lemma all_chars_impl (p q : ascii -> bool) s :
  (forall c, p c = true -> q c = true) ->
  all_chars p s = true -> all_chars q s = true.
Proof.
  intros Hpq. induction s as [|c s IH]; simpl; [reflexivity|].
  intros H. apply andb_true_iff in H as [Hc Hs].
  now rewrite (Hpq _ Hc), IH.
Qed.

Lemma bytes_cons c s : bytes (String c s) = byte_of_ascii c :: bytes s.
Proof. reflexivity. Qed.

Lemma bytes_app s1 s2 : bytes (s1 ++ s2) = (bytes s1 ++ bytes s2)%list.
Proof.
  induction s1 as [|c s1 IH]; [reflexivity|].
  simpl append. rewrite !bytes_cons, IH. reflexivity.
Qed.

Lemma isspace_newline c : isspace c = false -> Ascii.eqb c "010" = false.
Proof.
  intros H. apply Ascii.eqb_neq. intros ->. discriminate H.
Qed.

Lemma not_space_one_line s :
  all_chars (fun c => negb (isspace c)) s = true -> one_line s = true.
Proof.
  apply all_chars_impl. intros c H. apply negb_true_iff in H.
  now rewrite (isspace_newline _ H).
Qed.

(** Reading a line that is followed by its terminator gives the line back
    and leaves what follows in the buffer. *)
Lemma read_until_line line rest :
  one_line line = true ->
  read_until newline (bytes line ++ newline :: rest) = (line, rest).
Proof.
  induction line as [|c line IH]; intros H.
  - reflexivity.
  - unfold one_line in H. simpl in H. apply andb_true_iff in H as [Hc Hl].
    apply negb_true_iff in Hc. rewrite bytes_cons. simpl.
    destruct (Byte.eqb (byte_of_ascii c) newline) eqn:E.
    + apply Byte.byte_dec_bl in E.
      apply (f_equal ascii_of_byte) in E.
      rewrite ascii_of_byte_of_ascii in E. subst c. discriminate Hc.
    + rewrite (IH Hl), ascii_of_byte_of_ascii. reflexivity.
Qed.

Lemma skip_space_first c s :
  isspace c = false -> skip_space (String c s) = String c s.
Proof. intros H. simpl. now rewrite H. Qed.

Lemma drop_trailing_space_id s :
  all_chars (fun c => negb (isspace c)) s = true -> drop_trailing_space s = s.
Proof.
  induction s as [|c s IH]; simpl; [reflexivity|].
  intros H. apply andb_true_iff in H as [Hc Hs].
  apply negb_true_iff in Hc. rewrite (IH Hs), Hc.
  destruct s; reflexivity.
Qed.

Lemma trim_id s :
  all_chars (fun c => negb (isspace c)) s = true -> trim s = s.
Proof.
  intros H. unfold trim.
  destruct s as [|c s]; [reflexivity|].
  pose proof H as H'. simpl in H'. apply andb_true_iff in H' as [Hc _].
  apply negb_true_iff in Hc.
  rewrite (skip_space_first _ _ Hc). now apply drop_trailing_space_id.
Qed.

Lemma startsWith_iff s p :
  startsWith s p = true <-> exists body, s = p ++ body.
Proof.
  revert s. induction p as [|a p IH]; intros s; simpl.
  - split; [exists s; reflexivity | reflexivity].
  - destruct s as [|b s].
    + split; [discriminate | intros [body Hb]; discriminate].
    + rewrite andb_true_iff, Ascii.eqb_eq, IH. split.
      * intros [-> [body ->]]. now exists body.
      * intros [body Hb]. injection Hb as -> ->. split; [reflexivity|].
        now exists body.
Qed.

End StringFacts.

(** ** Decimal text and [toInt] *)

Section Decimal.

Local Open Scope string_scope.
Local Open Scope Z_scope.

Lemma digit_char_facts d :
  0 <= d < 10 ->
  isdigit (digit_char true d) = true /\
  digit_val (digit_char true d) = d /\
  isspace (digit_char true d) = false.
Proof.
  intros H.
  assert (d = 0 \/ d = 1 \/ d = 2 \/ d = 3 \/ d = 4 \/ d = 5 \/ d = 6 \/
          d = 7 \/ d = 8 \/ d = 9) as Hd by lia.
  repeat (destruct Hd as [-> | Hd]; [now vm_compute|]).
  subst d. now vm_compute.
Qed.

Lemma isdigit_not_space c : isdigit c = true -> isspace c = false.
Proof.
  unfold isdigit, isspace. intros H.
  apply andb_true_iff in H as [H1 H2].
  apply N.leb_le in H1. apply N.leb_le in H2.
  apply orb_false_iff. split.
  - apply andb_false_iff. right. apply N.leb_gt. lia.
  - apply N.eqb_neq. lia.
Qed.

Lemma printNumber_loop_app fuel upper base n s1 s2 :
  printNumber_loop fuel upper base n (s1 ++ s2)
  = printNumber_loop fuel upper base n s1 ++ s2.
Proof.
  revert n s1. induction fuel as [|fuel IH]; intros n s1; simpl.
  - reflexivity.
  - destruct (n / base =? 0); [reflexivity|].
    now rewrite <- IH.
Qed.

Lemma printNumber_loop_step fuel upper base n str :
  printNumber_loop (S fuel) upper base n str
  = if n / base =? 0 then String (digit_char upper (n mod base)) str
    else printNumber_loop fuel upper base (n / base)
           (String (digit_char upper (n mod base)) str).
Proof. reflexivity. Qed.

(** What the digit loop produces in base 10: a non-empty run of digits
    that [strtol_digits] reads back as the number. *)
Lemma printNumber_loop_digits fuel n :
  0 <= n < 10 ^ Z.of_nat (S fuel) ->
  exists c ds,
    printNumber_loop (S fuel) true 10 n EmptyString = String c ds /\
    all_chars isdigit (String c ds) = true /\
    forall acc rest,
      strtol_digits acc (String c ds ++ rest)
      = strtol_digits (acc * 10 ^ Z.of_nat (length (String c ds)) + n) rest.
Proof.
  revert n. induction fuel as [|fuel IH]; intros n Hn.
  - assert (n / 10 = 0) as E by (apply Z.div_small; lia).
    assert (n mod 10 = n) as M by (apply Z.mod_small; lia).
    destruct (digit_char_facts n) as (D1 & D2 & _); [lia|].
    exists (digit_char true n), EmptyString. cbn [printNumber_loop].
    rewrite E, M. cbn [Z.eqb all_chars andb length append strtol_digits].
    rewrite D1. split; [reflexivity|]. split; [reflexivity|].
    intros acc rest. rewrite D2. f_equal; lia.
  - rewrite printNumber_loop_step.
    destruct (digit_char_facts (n mod 10)) as (D1 & D2 & _);
      [apply Z.mod_pos_bound; lia|].
    destruct (n / 10 =? 0) eqn:E.
    + apply Z.eqb_eq in E.
      assert (n mod 10 = n) as M.
      { pose proof (Z.div_mod n 10). lia. }
      rewrite M in *.
      exists (digit_char true n), EmptyString.
      cbn [all_chars andb length append strtol_digits].
      rewrite D1. split; [reflexivity|]. split; [reflexivity|].
      intros acc rest. rewrite D2. f_equal; lia.
    + destruct (IH (n / 10)) as (c & ds & P1 & P2 & P3).
      { split; [apply Z.div_pos; lia|].
        apply Z.div_lt_upper_bound; [lia|].
        replace (10 * 10 ^ Z.of_nat (S fuel)) with (10 ^ Z.of_nat (S (S fuel)));
          [lia|].
        rewrite (Nat2Z.inj_succ (S fuel)), Z.pow_succ_r by lia. reflexivity. }
      set (dc := digit_char true (n mod 10)) in *.
      change (String dc EmptyString) with (EmptyString ++ String dc EmptyString).
      rewrite printNumber_loop_app, P1.
      exists c, (ds ++ String dc EmptyString).
      split; [reflexivity|].
      change (String c (ds ++ String dc EmptyString)) with (String c ds ++ String dc EmptyString).
      split.
      * rewrite all_chars_app, P2. cbn [all_chars]. now rewrite D1.
      * intros acc rest.
        rewrite append_assoc, P3, length_append.
        cbn [append strtol_digits]. rewrite D1, D2. f_equal.
        change (length (String dc EmptyString)) with 1%nat.
        rewrite Nat.add_1_r, (Nat2Z.inj_succ (length (String c ds))).
        rewrite Z.pow_succ_r by lia.
        pose proof (Z.div_mod n 10). lia.
Qed.

Lemma strtol_digits_stop acc rest :
  first_is_digit rest = false -> strtol_digits acc rest = acc.
Proof.
  destruct rest as [|c rest]; simpl; [reflexivity|].
  now intros ->.
Qed.

Lemma decimal_digits_spec n :
  0 <= n ->
  exists c ds,
    decimal_digits n = String c ds /\
    all_chars isdigit (String c ds) = true /\
    forall rest, first_is_digit rest = false ->
                 strtol_digits 0 (String c ds ++ rest) = n.
Proof.
  intros Hn. unfold decimal_digits.
  destruct (printNumber_loop_digits (Z.to_nat (Z.log2 n)) n)
    as (c & ds & P1 & P2 & P3).
  - split; [exact Hn|].
    rewrite Nat2Z.inj_succ, Z2Nat.id by apply Z.log2_nonneg.
    destruct (Z.eq_dec n 0) as [-> | Hz]; [reflexivity|].
    pose proof (Z.log2_spec n ltac:(lia)) as [_ Hlt].
    eapply Z.lt_le_trans; [exact Hlt|].
    apply Z.pow_le_mono_l. lia.
  - exists c, ds. split; [exact P1|]. split; [exact P2|].
    intros rest Hrest. rewrite P3, strtol_digits_stop by exact Hrest. lia.
Qed.

Lemma toInt_unsigned c ds :
  isdigit c = true ->
  toInt (String c ds) = saturate_long (strtol_digits 0 (String c ds)).
Proof.
  intros Hc. unfold toInt.
  rewrite (skip_space_first _ _ (isdigit_not_space _ Hc)).
  destruct (Ascii.eqb_spec c "-") as [-> | _]; [discriminate Hc|].
  destruct (Ascii.eqb_spec c "+") as [-> | _]; [discriminate Hc|].
  reflexivity.
Qed.

(** Reading back the decimal text of any integer, whatever follows it as
    long as that is not one more digit. *)
Lemma toInt_decimal t rest :
  first_is_digit rest = false ->
  toInt (decimal t ++ rest) = saturate_long t.
Proof.
  intros Hrest. unfold decimal.
  destruct (t <? 0) eqn:E.
  - apply Z.ltb_lt in E.
    destruct (decimal_digits_spec (- t)) as (c & ds & P1 & _ & P3); [lia|].
    rewrite P1. cbn [append]. unfold toInt. cbn [skip_space].
    change (isspace "-") with false. cbv iota.
    change (Ascii.eqb "-" "-") with true. cbv iota.
    change (String c (ds ++ rest)) with (String c ds ++ rest).
    rewrite (P3 _ Hrest). f_equal. lia.
  - apply Z.ltb_ge in E.
    destruct (decimal_digits_spec t) as (c & ds & P1 & P2 & P3); [lia|].
    rewrite P1. cbn [append]. rewrite toInt_unsigned.
    + change (String c (ds ++ rest)) with (String c ds ++ rest).
      now rewrite (P3 _ Hrest).
    + cbn [all_chars] in P2. now apply andb_true_iff in P2.
Qed.

Lemma decimal_no_space t :
  all_chars (fun c => negb (isspace c)) (decimal t) = true.
Proof.
  assert (forall n, 0 <= n ->
            all_chars (fun c => negb (isspace c)) (decimal_digits n) = true)
    as Hd.
  { intros n Hn.
    destruct (decimal_digits_spec n Hn) as (c & ds & P1 & P2 & _).
    rewrite P1. revert P2. apply all_chars_impl.
    intros a Ha. now rewrite (isdigit_not_space _ Ha). }
  unfold decimal. destruct (t <? 0) eqn:E.
  - apply Z.ltb_lt in E. cbn [all_chars]. rewrite Hd by lia. reflexivity.
  - apply Z.ltb_ge in E. now apply Hd.
Qed.


Lemma constrain_saturate t :
  constrain (saturate_long t) 0 180 = Z.max 0 (Z.min 180 t).
Proof.
  unfold constrain, saturate_long, LONG_MIN, LONG_MAX.
  destruct (Z.ltb_spec (Z.max (-2147483648) (Z.min 2147483647 t)) 0);
    [lia|].
  destruct (Z.gtb_spec (Z.max (-2147483648) (Z.min 2147483647 t)) 180); lia.
Qed.

Lemma constrain_range amt : 0 <= constrain amt 0 180 <= 180.
Proof.
  unfold constrain.
  destruct (Z.ltb_spec amt 0); [lia|].
  destruct (Z.gtb_spec amt 180); lia.
Qed.

End Decimal.

(** ** One call of [processCommands] *)

Section ProcessCommands.

Local Open Scope string_scope.
Local Open Scope Z_scope.

Lemma printNumber_loop_fuel f1 : forall f2 n str,
  0 <= n < 10 ^ Z.of_nat (S f1) -> n < 10 ^ Z.of_nat (S f2) ->
  printNumber_loop (S f1) true 10 n str = printNumber_loop (S f2) true 10 n str.
Proof.
  induction f1 as [|f1 IH]; intros f2 n str H1 H2;
    rewrite !printNumber_loop_step.
  - assert (n / 10 = 0) as -> by (apply Z.div_small; lia). reflexivity.
  - destruct (n / 10 =? 0) eqn:E; [reflexivity|].
    apply Z.eqb_neq in E.
    assert (0 <= n / 10) by (apply Z.div_pos; lia).
    rewrite (Nat2Z.inj_succ (S f1)), Z.pow_succ_r in H1 by lia.
    destruct f2 as [|f2].
    + exfalso. apply E, Z.div_small. lia.
    + rewrite (Nat2Z.inj_succ (S f2)), Z.pow_succ_r in H2 by lia.
      apply IH.
      * split; [lia|]. apply Z.div_lt_upper_bound; lia.
      * apply Z.div_lt_upper_bound; lia.
Qed.

(** An angle is printed as its decimal text. *)
Lemma print_long_decimal a : 0 <= a <= 180 -> print_long a = decimal a.
Proof.
  intros Ha. unfold print_long, decimal, printNumber, decimal_digits.
  destruct (Z.ltb_spec a 0); [lia|].
  rewrite Z.mod_small by lia.
  apply (printNumber_loop_fuel 31 (Z.to_nat (Z.log2 a)) a EmptyString).
  - change (10 ^ Z.of_nat 32) with 100000000000000000000000000000000. lia.
  - rewrite Nat2Z.inj_succ, Z2Nat.id by apply Z.log2_nonneg.
    destruct (Z.eq_dec a 0) as [-> | Hz]; [reflexivity|].
    pose proof (Z.log2_spec a ltac:(lia)) as [_ Hlt].
    eapply Z.lt_le_trans; [exact Hlt|].
    apply Z.pow_le_mono_l. lia.
Qed.

Lemma available_nonzero (w : World) :
  SerialBT_rx w <> [] -> negb (SerialBT_available w =? 0) = true.
Proof.
  unfold SerialBT_available. destruct (SerialBT_rx w) as [|b rx].
  - intros H. now contradiction H.
  - intros _. reflexivity.
Qed.

Lemma processCommands_nothing (w : World) :
  SerialBT_rx w = [] -> processCommands w = w.
Proof.
  intros H. unfold processCommands, SerialBT_available. now rewrite H.
Qed.

Lemma processCommands_recognized (w : World) line rest :
  SerialBT_rx w <> [] ->
  read_until newline (SerialBT_rx w) = (line, rest) ->
  startsWith (trim line) "S14:" = true ->
  processCommands w =
    let angle := constrain (toInt (substring 4 (trim line))) 0 180 in
    SerialBT_println (print_long angle)
      (SerialBT_print "Servo set to "
         (Serial_println (print_long angle)
            (Serial_print "Servo on GPIO14 set to "
               (set_currentServoAngle angle
                  (myServo_write angle (set_SerialBT_rx rest w)))))).
Proof.
  intros Hne Hread Hs. unfold processCommands, SerialBT_readStringUntil.
  now rewrite (available_nonzero _ Hne), Hread, Hs.
Qed.

Lemma processCommands_unknown (w : World) line rest :
  SerialBT_rx w <> [] ->
  read_until newline (SerialBT_rx w) = (line, rest) ->
  startsWith (trim line) "S14:" = false ->
  processCommands w =
    Serial_println (trim line)
      (Serial_print "Unknown command received: " (set_SerialBT_rx rest w)).
Proof.
  intros Hne Hread Hs. unfold processCommands, SerialBT_readStringUntil.
  now rewrite (available_nonzero _ Hne), Hread, Hs.
Qed.

Lemma rx_line_nonempty (w : World) line rest :
  SerialBT_rx w = (bytes line ++ newline :: rest)%list -> SerialBT_rx w <> [].
Proof. intros -> H. now destruct (bytes line). Qed.

(** The effect of a line [S14:<body>] once trimmed. *)
Lemma processCommands_S14 (w : World) line rest body :
  SerialBT_rx w <> [] ->
  read_until newline (SerialBT_rx w) = (line, rest) ->
  trim line = "S14:" ++ body ->
  let w' := processCommands w in
  let angle := constrain (toInt body) 0 180 in
  currentServoAngle w' = angle /\
  servo_writes w' = (servo_writes w ++ [angle])%list /\
  SerialBT_tx w'
    = (SerialBT_tx w ++ bytes ("Servo set to " ++ decimal angle ++ CRLF))%list /\
  SerialBT_rx w' = rest.
Proof.
  intros Hne Hread Htrim.
  assert (startsWith (trim line) "S14:" = true) as Hs
    by (apply startsWith_iff; now exists body).
  cbv zeta. rewrite (processCommands_recognized _ _ _ Hne Hread Hs).
  rewrite Htrim. cbn [append substring]. cbv zeta.
  rewrite print_long_decimal by apply constrain_range.
  repeat split.
  cbn [SerialBT_tx SerialBT_println SerialBT_print SerialBT_write Serial_println
       Serial_print set_currentServoAngle myServo_write set_SerialBT_rx].
  fold (bytes "Servo set to "). fold (bytes (decimal (constrain (toInt body) 0 180))).
  fold (bytes CRLF).
  now rewrite <- !app_assoc, <- !bytes_app.
Qed.

(** The effect of the decimal text of [t] behind the prefix. *)
Lemma processCommands_set_angle (t : Z) (w : World) rest :
  SerialBT_rx w = (bytes ("S14:" ++ decimal t) ++ newline :: rest)%list ->
  let w' := processCommands w in
  let applied := Z.max 0 (Z.min 180 t) in
  currentServoAngle w' = applied /\
  servo_writes w' = (servo_writes w ++ [applied])%list /\
  SerialBT_tx w'
    = (SerialBT_tx w ++ bytes ("Servo set to " ++ decimal applied ++ CRLF))%list /\
  SerialBT_rx w' = rest.
Proof.
  intros Hrx.
  assert (all_chars (fun c => negb (isspace c)) ("S14:" ++ decimal t) = true)
    as Hplain by (rewrite all_chars_app, decimal_no_space; reflexivity).
  pose proof (processCommands_S14 w ("S14:" ++ decimal t) rest (decimal t)
                (rx_line_nonempty _ _ _ Hrx)) as H.
  rewrite Hrx, (read_until_line _ _ (not_space_one_line _ Hplain)) in H.
  specialize (H eq_refl (trim_id _ Hplain)). cbv zeta in H.
  rewrite <- (append_empty_r (decimal t)) in H at 1 2 3.
  rewrite toInt_decimal, constrain_saturate in H by reflexivity.
  exact H.
Qed.

End ProcessCommands.

(** ** Frame header *)

Section Framing.

Lemma byte_of_Z_value z : Z.of_N (Byte.to_N (byte_of_Z z)) = Z.land z 255.
Proof.
  unfold byte_of_Z.
  assert (0 <= Z.land z 255 <= 255) as Hb.
  { change 255 with (Z.ones 8) at 1 2. rewrite Z.land_ones by lia.
    pose proof (Z.mod_pos_bound z (2 ^ 8) ltac:(lia)).
    change (Z.ones 8) with 255. change (2 ^ 8) with 256 in *. lia. }
  destruct (Byte.of_N (Z.to_N (Z.land z 255))) as [b|] eqn:E.
  - apply Byte.to_of_N in E. rewrite E. lia.
  - apply Byte.of_N_None_iff in E. lia.
Qed.

Lemma testbit_255 i : 0 <= i -> Z.testbit 255 i = (i <? 8).
Proof.
  intros Hi. change 255 with (Z.ones 8).
  destruct (Z.ltb_spec i 8).
  - apply Z.ones_spec_low. lia.
  - apply Z.ones_spec_high. lia.
Qed.

(** The header decodes to the number it was made from. *)
Lemma uint32_roundtrip n :
  0 <= n < 2 ^ 32 -> uint32_of_bytes (uint32_bytes n) = n.
Proof.
  intros Hn. unfold uint32_bytes, uint32_of_bytes.
  rewrite !byte_of_Z_value.
  apply Z.bits_inj'. intros i Hi.
  rewrite !Z.lor_spec.
  rewrite (Z.shiftl_spec _ 8), (Z.shiftl_spec _ 16), (Z.shiftl_spec _ 24)
    by exact Hi.
  rewrite !Z.land_spec.
  destruct (Z.ltb_spec i 8) as [L8 | G8].
  - rewrite testbit_255 by exact Hi.
    rewrite (Z.testbit_neg_r _ (i - 8)), (Z.testbit_neg_r _ (i - 16)),
      (Z.testbit_neg_r _ (i - 24)) by lia.
    destruct (Z.ltb_spec i 8); [|lia].
    now rewrite andb_true_r, !orb_false_r.
  - rewrite (testbit_255 i) by exact Hi.
    destruct (Z.ltb_spec i 8) as [|_]; [lia|]. rewrite andb_false_r.
    cbn [orb].
    rewrite (testbit_255 (i - 8)), Z.shiftr_spec by lia.
    replace (i - 8 + 8) with i by lia.
    destruct (Z.ltb_spec (i - 8) 8) as [L16 | G16].
    + rewrite (Z.testbit_neg_r _ (i - 16)), (Z.testbit_neg_r _ (i - 24))
        by lia.
      now rewrite andb_true_r, !orb_false_r.
    + rewrite andb_false_r. cbn [orb].
      rewrite (testbit_255 (i - 16)), Z.shiftr_spec by lia.
      replace (i - 16 + 16) with i by lia.
      destruct (Z.ltb_spec (i - 16) 8) as [L24 | G24].
      * rewrite (Z.testbit_neg_r _ (i - 24)) by lia.
        now rewrite andb_true_r, !orb_false_r.
      * rewrite andb_false_r. cbn [orb].
        rewrite (testbit_255 (i - 24)), Z.shiftr_spec by lia.
        replace (i - 24 + 24) with i by lia.
        destruct (Z.ltb_spec (i - 24) 8) as [L32 | G32].
        -- now rewrite andb_true_r.
        -- rewrite andb_false_r. symmetry.
           destruct (Z.eq_dec n 0) as [-> | Hz]; [apply Z.bits_0|].
           apply Z.bits_above_log2; [lia|].
           assert (Z.log2 n < 32) by (apply Z.log2_lt_pow2; lia). lia.
Qed.

Lemma frame_bytes_payload fb :
  len fb < 2 ^ 32 -> frame_bytes fb = uint32_bytes (len fb) ++ buf fb.
Proof.
  intros H. unfold frame_bytes.
  assert (0 <= len fb) by (unfold len; lia).
  rewrite Z.mod_small by lia.
  unfold len at 2. rewrite Nat2Z.id, firstn_all. reflexivity.
Qed.

Lemma send_frame_tx fb w :
  SerialBT_tx (send_frame fb w) = SerialBT_tx w ++ frame_bytes fb.
Proof.
  unfold send_frame, frame_bytes. cbn. now rewrite <- app_assoc.
Qed.

End Framing.

(** ** Worlds that agree on the link *)

Section SameLink.

Lemma same_link_refl w : same_link w w.
Proof. unfold same_link. auto. Qed.

Lemma same_link_sym w1 w2 : same_link w1 w2 -> same_link w2 w1.
Proof. unfold same_link. intuition congruence. Qed.

Lemma same_link_trans w1 w2 w3 :
  same_link w1 w2 -> same_link w2 w3 -> same_link w1 w3.
Proof. unfold same_link. intuition congruence. Qed.

Lemma same_link_delay ms w : same_link (delay ms w) w.
Proof. unfold same_link. cbn. auto. Qed.

Lemma same_link_Serial_print s w : same_link (Serial_print s w) w.
Proof. unfold same_link. cbn. auto. Qed.

Lemma same_link_Serial_println s w : same_link (Serial_println s w) w.
Proof. unfold same_link. cbn. auto. Qed.

(** [processCommands] reads nothing but the link: two worlds that agree
    on it are treated alike. *)
Lemma processCommands_same_link w1 w2 :
  same_link w1 w2 -> same_link (processCommands w1) (processCommands w2).
Proof.
  intros (Ha & Hp & Hw & Hrx & Htx). unfold same_link.
  unfold processCommands, SerialBT_readStringUntil, SerialBT_available.
  rewrite <- Hrx.
  destruct (negb (Z.of_nat (List.length (SerialBT_rx w1)) =? 0)).
  - destruct (read_until newline (SerialBT_rx w1)) as [line rest].
    destruct (startsWith (trim line) "S14:"); cbn;
      rewrite ?Hp, ?Hw, ?Htx; auto.
  - auto.
Qed.

End SameLink.

(** ** One call of [loop] *)

Section Loop.

Lemma loop_idle env w :
  SerialBT_hasClient env = false ->
  loop env w
  = delay 500 (Serial_println "No Bluetooth client connected. Waiting..." w).
Proof. intros H. unfold loop. now rewrite H. Qed.

Lemma loop_capture_failed env w :
  SerialBT_hasClient env = true -> esp_camera_fb_get env = None ->
  loop env w
  = delay 1000 (Serial_println "Camera capture failed" (processCommands w)).
Proof. intros H1 H2. unfold loop. now rewrite H1, H2. Qed.

Lemma loop_frame env fb w :
  SerialBT_hasClient env = true -> esp_camera_fb_get env = Some fb ->
  loop env w
  = delay 1000
      (esp_camera_fb_return (send_frame fb (take_fb (processCommands w)))).
Proof. intros H1 H2. unfold loop. now rewrite H1, H2. Qed.

Lemma loop_idle_same_link env w :
  SerialBT_hasClient env = false -> same_link (loop env w) w.
Proof.
  intros H. rewrite (loop_idle _ _ H). unfold same_link. cbn. auto.
Qed.

Lemma loop_failed_same_link w :
  same_link (loop (active None) w) (processCommands w).
Proof.
  rewrite loop_capture_failed by reflexivity. unfold same_link. cbn. auto.
Qed.

(** A cycle with a frame differs from command processing alone by the
    frame's bytes at the end of the outbound stream. *)
Lemma loop_frame_effect fb w :
  let w' := loop (active (Some fb)) w in
  let c := processCommands w in
  currentServoAngle w' = currentServoAngle c /\
  servo_writes w' = servo_writes c /\
  SerialBT_rx w' = SerialBT_rx c /\
  SerialBT_tx w' = SerialBT_tx c ++ frame_bytes fb /\
  fb_taken w' = S (fb_taken c) /\
  fb_returned w' = S (fb_returned c).
Proof.
  cbv zeta. rewrite (loop_frame (active (Some fb)) fb) by reflexivity.
  repeat split. cbn [SerialBT_tx delay esp_camera_fb_return].
  rewrite send_frame_tx. reflexivity.
Qed.

Lemma processCommands_camera w :
  fb_taken (processCommands w) = fb_taken w /\
  fb_returned (processCommands w) = fb_returned w.
Proof.
  unfold processCommands, SerialBT_readStringUntil.
  destruct (negb (SerialBT_available w =? 0)); [|auto].
  destruct (read_until newline (SerialBT_rx w)) as [line rest].
  destruct (startsWith (trim line) "S14:"); cbn; auto.
Qed.

Lemma processCommands_delays w : delays (processCommands w) = delays w.
Proof.
  unfold processCommands, SerialBT_readStringUntil.
  destruct (negb (SerialBT_available w =? 0)); [|reflexivity].
  destruct (read_until newline (SerialBT_rx w)) as [line rest].
  destruct (startsWith (trim line) "S14:"); reflexivity.
Qed.

Lemma loop_active_commands env w :
  SerialBT_hasClient env = true ->
  currentServoAngle (loop env w) = currentServoAngle (processCommands w) /\
  servo_pin (loop env w) = servo_pin (processCommands w) /\
  servo_writes (loop env w) = servo_writes (processCommands w) /\
  SerialBT_rx (loop env w) = SerialBT_rx (processCommands w).
Proof.
  intros H. unfold loop. rewrite H. cbn [negb].
  destruct (esp_camera_fb_get env); cbn; auto.
Qed.

Lemma loop_active_delays env w :
  SerialBT_hasClient env = true ->
  delays (loop env w) = delays w ++ [1000].
Proof.
  intros H. unfold loop. rewrite H. cbn [negb].
  destruct (esp_camera_fb_get env); cbn; now rewrite processCommands_delays.
Qed.

(** Queued set-angle commands are served one per cycle with a peer, in
    the order they arrived. *)
Lemma cycles_apply_commands (ts : list Z) : forall envs w rest,
  Forall (fun env => SerialBT_hasClient env = true) envs ->
  List.length envs = List.length ts ->
  SerialBT_rx w = command_lines ts ++ rest ->
  servo_writes (cycles envs w)
  = servo_writes w ++ map (fun t => Z.max 0 (Z.min 180 t)) ts /\
  SerialBT_rx (cycles envs w) = rest.
Proof.
  induction ts as [|t ts IH]; intros envs w rest Hpeer Hlen Hrx.
  - destruct envs; [|discriminate Hlen]. cbn. now rewrite app_nil_r.
  - destruct envs as [|env envs]; [discriminate Hlen|].
    inversion Hpeer as [|? ? Henv Hrest]; subst.
    cbn [command_lines] in Hrx. rewrite <- app_assoc in Hrx. cbn [app] in Hrx.
    destruct (processCommands_set_angle t w _ Hrx) as (_ & S1 & _ & R1).
    destruct (loop_active_commands env w Henv) as (_ & _ & Lw & Lrx).
    cbn [cycles fold_left].
    destruct (IH envs (loop env w) rest Hrest) as (A & B).
    + now injection Hlen.
    + now rewrite Lrx.
    + unfold cycles in *. rewrite A, B, Lw, S1. cbn [map].
      now rewrite <- app_assoc.
Qed.

Lemma cycles_idle_same_link envs : forall w,
  Forall (fun env => SerialBT_hasClient env = false) envs ->
  same_link (cycles envs w) w /\ fb_taken (cycles envs w) = fb_taken w.
Proof.
  induction envs as [|env envs IH]; intros w H.
  - split; [apply same_link_refl | reflexivity].
  - inversion H as [|? ? Henv Hrest]; subst. cbn [cycles fold_left].
    destruct (IH (loop env w) Hrest) as [IH1 IH2]. split.
    + eapply same_link_trans; [exact IH1|]. now apply loop_idle_same_link.
    + unfold cycles in IH2. rewrite IH2, (loop_idle _ _ Henv). reflexivity.
Qed.

End Loop.

(** ** Invariants of the running firmware *)

Section Machine.

Variable boot : BootEnv.

Lemma angle_ok_same_link w1 w2 : same_link w1 w2 -> angle_ok w2 -> angle_ok w1.
Proof.
  intros (Ha & _ & Hw & _) [H1 H2]. unfold angle_ok. now rewrite Ha, Hw.
Qed.

Lemma processCommands_angle_ok w : angle_ok w -> angle_ok (processCommands w).
Proof.
  intros [H1 H2]. unfold processCommands, SerialBT_readStringUntil.
  destruct (negb (SerialBT_available w =? 0)); [|now split].
  destruct (read_until newline (SerialBT_rx w)) as [line rest].
  destruct (startsWith (trim line) "S14:"); unfold angle_ok; cbn.
  - split; [apply constrain_range|].
    apply Forall_app. split; [exact H2|].
    constructor; [apply constrain_range | constructor].
  - now split.
Qed.

Lemma loop_angle_ok env w : angle_ok w -> angle_ok (loop env w).
Proof.
  intros H. unfold loop.
  destruct (negb (SerialBT_hasClient env)); [exact H|].
  apply processCommands_angle_ok in H.
  destruct (esp_camera_fb_get env); exact H.
Qed.

Lemma print_mac_bytes_same_link mac : forall w,
  same_link (print_mac_bytes mac w) w.
Proof.
  induction mac as [|b mac IH]; intros w; cbn [print_mac_bytes].
  - apply same_link_refl.
  - eapply same_link_trans; [apply IH|].
    destruct mac; destruct (b <? 16); unfold same_link; cbn; auto.
Qed.

Lemma setup_angle_ok w w' :
  angle_ok w -> setup boot w = Returned w' \/ setup boot w = Spinning w' ->
  angle_ok w'.
Proof.
  intros [H1 H2]. unfold setup, initCamera.
  destruct (negb (esp_camera_init boot =? ESP_OK)).
  - intros [H | H]; [discriminate H|]. injection H as <-. now split.
  - assert (angle_ok (myServo_write (currentServoAngle w)
                        (myServo_attach servoPin w))) as Hs.
    { split; cbn; [exact H1|]. apply Forall_app. split; [exact H2|].
      constructor; [exact H1 | constructor]. }
    intros [H | H]; destruct (negb (SerialBT_begin boot));
      try discriminate H; injection H as <-;
      (eapply angle_ok_same_link; [|exact Hs]);
      (eapply same_link_trans; [apply same_link_Serial_println|]);
      unfold printBTMacAddress;
      (eapply same_link_trans; [apply same_link_Serial_println|]);
      (eapply same_link_trans; [apply print_mac_bytes_same_link|]);
      (eapply same_link_trans; [apply same_link_Serial_print|]);
      apply same_link_Serial_println.
Qed.

Lemma step_angle_ok ev s : angle_ok (snd s) -> angle_ok (snd (step boot ev s)).
Proof.
  destruct s as [ph w]. cbn [snd]. intros H. unfold step.
  destruct ev as [env | bs].
  - destruct ph; cbn [snd].
    + destruct (setup boot w) as [w' | w'] eqn:E; cbn [snd];
        eapply setup_angle_ok; eauto.
    + exact H.
    + now apply loop_angle_ok.
  - exact H.
Qed.

Lemma power_on_angle_ok : angle_ok power_on.
Proof. split; cbn; [lia | constructor]. Qed.

Lemma run_halted evs : forall w,
  let s := run boot evs (Halted, w) in
  fst s = Halted /\ untouched w (snd s) /\
  SerialBT_rx (snd s) = SerialBT_rx w ++ received evs.
Proof.
  induction evs as [|ev evs IH]; intros w; cbn [run fold_left].
  - cbn. unfold untouched. now rewrite app_nil_r.
  - destruct ev as [env | bs]; cbn [step].
    + destruct (IH (halt_turn w)) as (P1 & P2 & P3).
      split; [exact P1|]. split; [exact P2|]. exact P3.
    + destruct (IH (SerialBT_receive bs w)) as (P1 & P2 & P3).
      split; [exact P1|]. split; [exact P2|].
      unfold run in P3. rewrite P3. cbn. now rewrite <- app_assoc.
Qed.

Lemma setup_camera_failure w :
  esp_camera_init boot <> ESP_OK ->
  setup boot w
  = Spinning (Serial_print
                ("Camera init failed with error 0x"
                   ++ printNumber false 16 (esp_camera_init boot)) w).
Proof.
  intros H. unfold setup, initCamera.
  destruct (Z.eqb_spec (esp_camera_init boot) ESP_OK) as [E | _];
    [contradiction | reflexivity].
Qed.

Lemma run_boot_camera_failure evs : forall w,
  esp_camera_init boot <> ESP_OK ->
  let s := run boot evs (Boot, w) in
  fst s <> Running /\ untouched w (snd s) /\
  SerialBT_rx (snd s) = SerialBT_rx w ++ received evs.
Proof.
  induction evs as [|ev evs IH]; intros w Hfail; cbn [run fold_left].
  - cbn. unfold untouched. rewrite app_nil_r. repeat split. discriminate.
  - destruct ev as [env | bs]; cbn [step].
    + rewrite (setup_camera_failure _ Hfail).
      match goal with |- context [(Halted, ?w1)] =>
        destruct (run_halted evs w1) as (P1 & P2 & P3) end.
      unfold run in *. cbn [received]. rewrite P1.
      split; [discriminate|]. split; [exact P2 | exact P3].
    + destruct (IH (SerialBT_receive bs w) Hfail) as (P1 & P2 & P3).
      split; [exact P1|]. split; [exact P2|].
      unfold run in P3. rewrite P3. cbn. now rewrite <- app_assoc.
Qed.

Lemma same_link_untouched w1 w2 :
  untouched w1 w2 -> SerialBT_rx w2 = SerialBT_rx w1 -> same_link w2 w1.
Proof.
  intros (A & B & C & D & _) E. unfold same_link. auto.
Qed.

Lemma run_peerless evs : forall w,
  Forall peerless evs ->
  let s := run boot evs (Running, w) in
  fst s = Running /\ untouched w (snd s) /\
  SerialBT_rx (snd s) = SerialBT_rx w ++ received evs.
Proof.
  induction evs as [|ev evs IH]; intros w H; cbn [run fold_left].
  - cbn. unfold untouched. now rewrite app_nil_r.
  - inversion H as [|? ? Hev Hrest]; subst.
    destruct ev as [env | bs]; cbn [step received].
    + cbn in Hev. rewrite (loop_idle _ _ Hev).
      match goal with |- context [(Running, ?w1)] =>
        destruct (IH w1 Hrest) as (P1 & P2 & P3) end.
      split; [exact P1|]. split; [exact P2 | exact P3].
    + destruct (IH (SerialBT_receive bs w) Hrest) as (P1 & P2 & P3).
      split; [exact P1|]. split; [exact P2|].
      unfold run in P3. rewrite P3. cbn. now rewrite <- app_assoc.
Qed.

Lemma reachable_angle_ok s : reachable boot s -> angle_ok (snd s).
Proof.
  induction 1 as [|s ev _ IH].
  - apply power_on_angle_ok.
  - now apply step_angle_ok.
Qed.

End Machine.

(** ** Properties of the command and framing protocol *)

Section Protocol.

Local Open Scope string_scope.
Local Open Scope Z_scope.

(** C2: a set-angle command carrying the decimal text of any integer [t]
    leaves [currentServoAngle] at [t] clamped into 0..180, writes that
    angle to the servo and sends the line "Servo set to <angle>" with the
    clamped angle on the link; "S14:181" applies 180 and "S14:-5"
    applies 0. *)
Theorem set_angle_clamps_and_acknowledges
    (t : Z) (w : World) (rest : list byte)
    (Hrx : SerialBT_rx w
           = (bytes ("S14:" ++ decimal t) ++ newline :: rest)%list) :
  let w' := processCommands w in
  let applied := Z.max 0 (Z.min 180 t) in
  (currentServoAngle w' = applied /\
   servo_writes w' = (servo_writes w ++ [applied])%list /\
   SerialBT_tx w'
   = (SerialBT_tx w ++ bytes ("Servo set to " ++ decimal applied ++ CRLF))%list /\
   SerialBT_rx w' = rest) /\
  (forall w0 r0,
      SerialBT_rx w0 = (bytes "S14:181" ++ newline :: r0)%list ->
      currentServoAngle (processCommands w0) = 180 /\
      SerialBT_tx (processCommands w0)
      = (SerialBT_tx w0 ++ bytes ("Servo set to 180" ++ CRLF))%list) /\
  (forall w0 r0,
      SerialBT_rx w0 = (bytes "S14:-5" ++ newline :: r0)%list ->
      currentServoAngle (processCommands w0) = 0 /\
      SerialBT_tx (processCommands w0)
      = (SerialBT_tx w0 ++ bytes ("Servo set to 0" ++ CRLF))%list).
Proof.
  cbv zeta. split; [exact (processCommands_set_angle t w rest Hrx)|].
  split; intros w0 r0 H0.
  - destruct (processCommands_set_angle 181 w0 r0 H0) as (A & _ & B & _).
    split; [exact A | exact B].
  - destruct (processCommands_set_angle (-5) w0 r0 H0) as (A & _ & B & _).
    split; [exact A | exact B].
Qed.

Lemma set_angle_clamps_and_acknowledges_witness :
  currentServoAngle (processCommands (with_rx ("S14:250" ++ LF))) = 180.
Proof.
  exact (proj1 (proj1
    (set_angle_clamps_and_acknowledges 250 (with_rx ("S14:250" ++ LF)) []
       eq_refl))).
Defined.

(** C3: for a frame whose length fits 32 bits, the cycle appends to the
    link exactly the 4-byte little-endian length followed by the payload:
    4 + N bytes, whose first four decode to N. *)
Theorem frame_is_length_prefixed
    (fb : camera_fb_t) (w : World) (Hlen : len fb < 2 ^ 32) :
  let emitted := frame_bytes fb in
  SerialBT_tx (loop (active (Some fb)) w)
  = (SerialBT_tx (processCommands w) ++ emitted)%list /\
  emitted = (uint32_bytes (len fb) ++ buf fb)%list /\
  Z.of_nat (List.length emitted) = 4 + len fb /\
  uint32_of_bytes (firstn 4 emitted) = len fb.
Proof.
  cbv zeta.
  destruct (loop_frame_effect fb w) as (_ & _ & _ & Htx & _).
  rewrite (frame_bytes_payload fb Hlen).
  split; [rewrite <- (frame_bytes_payload fb Hlen); exact Htx|].
  split; [reflexivity|]. split.
  - rewrite length_app. unfold len. cbn [uint32_bytes List.length]. lia.
  - cbn [uint32_bytes app firstn]. apply uint32_roundtrip.
    unfold len in *. lia.
Qed.

Lemma frame_is_length_prefixed_witness :
  SerialBT_tx (loop (active (Some {| buf := bytes "JFIF-data" |})) power_on)
  = (["009"; "000"; "000"; "000"]%byte ++ bytes "JFIF-data")%list.
Proof.
  exact (proj1
    (frame_is_length_prefixed {| buf := bytes "JFIF-data" |} power_on
       eq_refl)).
Defined.

(** C1, as the code has it: a cycle with a peer makes one availability
    check and reads at most one line before it captures a frame.  The
    line is taken out of the buffer, a recognized one is applied to the
    servo, and every byte behind it stays buffered for a later cycle; with
    an empty buffer nothing is read at all. *)
Theorem cycle_reads_one_line
    (w : World) (line : string) (rest : list byte)
    (fb : option camera_fb_t)
    (Hline : one_line line = true)
    (Hrx : SerialBT_rx w = (bytes line ++ newline :: rest)%list) :
  SerialBT_rx (processCommands w) = rest /\
  SerialBT_rx (loop (active fb) w) = rest /\
  (startsWith (trim line) "S14:" = true ->
   servo_writes (loop (active fb) w)
   = (servo_writes w
        ++ [constrain (toInt (substring 4 (trim line))) 0 180])%list) /\
  (startsWith (trim line) "S14:" = false ->
   servo_writes (loop (active fb) w) = servo_writes w) /\
  (forall w0, SerialBT_rx w0 = [] -> processCommands w0 = w0).
Proof.
  pose proof (rx_line_nonempty _ _ _ Hrx) as Hne.
  pose proof (read_until_line line rest Hline) as Hread.
  rewrite <- Hrx in Hread.
  assert (SerialBT_rx (loop (active fb) w) = SerialBT_rx (processCommands w)
          /\ servo_writes (loop (active fb) w)
             = servo_writes (processCommands w)) as [Lrx Lsw].
  { destruct fb as [fb|].
    - destruct (loop_frame_effect fb w) as (_ & A & B & _). now split.
    - destruct (loop_failed_same_link w) as (_ & _ & A & B & _). now split. }
  rewrite Lrx, Lsw.
  assert (SerialBT_rx (processCommands w) = rest) as Prx.
  { destruct (startsWith (trim line) "S14:") eqn:E.
    - now rewrite (processCommands_recognized _ _ _ Hne Hread E).
    - now rewrite (processCommands_unknown _ _ _ Hne Hread E). }
  split; [exact Prx|]. split; [exact Prx|]. split; [|split].
  - intros E. now rewrite (processCommands_recognized _ _ _ Hne Hread E).
  - intros E. now rewrite (processCommands_unknown _ _ _ Hne Hread E).
  - exact processCommands_nothing.
Qed.

Lemma cycle_reads_one_line_witness :
  SerialBT_rx (processCommands (with_rx ("S14:10" ++ LF ++ "S14:20" ++ LF)))
  = bytes ("S14:20" ++ LF).
Proof.
  exact (proj1
    (cycle_reads_one_line (with_rx ("S14:10" ++ LF ++ "S14:20" ++ LF))
       "S14:10" (bytes ("S14:20" ++ LF)) None eq_refl eq_refl)).
Defined.

(** C1, as the claim states it, fails: with two commands buffered, the
    frame is captured and sent while the second command is still waiting
    in the buffer, and only the first angle has reached the servo. *)
Lemma second_line_waits_behind_frame :
  let w := with_rx ("S14:10" ++ LF ++ "S14:20" ++ LF) in
  let fb := {| buf := bytes "JFIF" |} in
  SerialBT_available (processCommands w) <> 0 /\
  SerialBT_rx (loop (active (Some fb)) w) = bytes ("S14:20" ++ LF) /\
  servo_writes (loop (active (Some fb)) w) = [10] /\
  SerialBT_tx (loop (active (Some fb)) w)
  = (bytes ("Servo set to 10" ++ CRLF) ++ frame_bytes fb)%list.
Proof.
  cbv zeta. split; [|split; [|split]]; now vm_compute.
Qed.

(** C6: a line that does not start with "S14:" is reported on the debug
    output with its text, nothing is sent on the link, the angle and the
    servo are left alone, and the lines behind it are still served: a
    set-angle command that follows is applied by the next call. *)
Theorem unrecognized_line_is_only_logged
    (w : World) (line : string) (rest : list byte)
    (Hline : one_line line = true)
    (Hrx : SerialBT_rx w = (bytes line ++ newline :: rest)%list)
    (Hno : startsWith (trim line) "S14:" = false) :
  let w' := processCommands w in
  Serial_out w'
  = Serial_out w ++ "Unknown command received: " ++ trim line ++ CRLF /\
  SerialBT_tx w' = SerialBT_tx w /\
  currentServoAngle w' = currentServoAngle w /\
  servo_writes w' = servo_writes w /\
  SerialBT_rx w' = rest /\
  (forall t rest2,
      rest = (bytes ("S14:" ++ decimal t) ++ newline :: rest2)%list ->
      currentServoAngle (processCommands w') = Z.max 0 (Z.min 180 t) /\
      SerialBT_rx (processCommands w') = rest2).
Proof.
  pose proof (rx_line_nonempty _ _ _ Hrx) as Hne.
  pose proof (read_until_line line rest Hline) as Hread.
  rewrite <- Hrx in Hread. cbv zeta.
  rewrite (processCommands_unknown _ _ _ Hne Hread Hno).
  split; [|split; [|split; [|split; [|split]]]]; try reflexivity.
  - cbn [Serial_out Serial_println Serial_print set_SerialBT_rx].
    now rewrite !append_assoc.
  - intros t rest2 ->.
    match goal with |- context [processCommands ?x] =>
      destruct (processCommands_set_angle t x rest2 eq_refl)
        as (A & _ & _ & B) end.
    split; [exact A | exact B].
Qed.

Lemma unrecognized_line_is_only_logged_witness :
  Serial_out (processCommands (with_rx ("hello" ++ LF ++ "S14:45" ++ LF)))
  = "Unknown command received: hello" ++ CRLF.
Proof.
  exact (proj1
    (unrecognized_line_is_only_logged
       (with_rx ("hello" ++ LF ++ "S14:45" ++ LF)) "hello"
       (bytes ("S14:45" ++ LF)) eq_refl eq_refl eq_refl)).
Defined.



(** C10: a command is recognized exactly when its trimmed text begins
    with the four characters S, 1, 4 and colon, case and spacing included.
    Any other line moves nothing, sends nothing and ends in the
    unknown-command report; "s14:90" and "S 14:90" are such lines, while
    white space around a command does not matter. *)
Theorem prefix_match_is_exact
    (w : World) (line : string) (rest : list byte)
    (Hline : one_line line = true)
    (Hrx : SerialBT_rx w = (bytes line ++ newline :: rest)%list)
    (Hnot : forall body, trim line <> "S14:" ++ body) :
  (forall s, startsWith s "S14:" = true <-> exists body, s = "S14:" ++ body) /\
  (servo_writes (processCommands w) = servo_writes w /\
   currentServoAngle (processCommands w) = currentServoAngle w /\
   SerialBT_tx (processCommands w) = SerialBT_tx w /\
   Serial_out (processCommands w)
   = Serial_out w ++ "Unknown command received: " ++ trim line ++ CRLF) /\
  startsWith (trim "s14:90") "S14:" = false /\
  startsWith (trim "S 14:90") "S14:" = false /\
  startsWith (trim "  S14:90 ") "S14:" = true.
Proof.
  split; [intros s; apply startsWith_iff|].
  split; [|repeat split].
  assert (startsWith (trim line) "S14:" = false) as Hno.
  { destruct (startsWith (trim line) "S14:") eqn:E; [|reflexivity].
    apply startsWith_iff in E as [body E]. now destruct (Hnot body). }
  pose proof (rx_line_nonempty _ _ _ Hrx) as Hne.
  pose proof (read_until_line line rest Hline) as Hread.
  rewrite <- Hrx in Hread.
  rewrite (processCommands_unknown _ _ _ Hne Hread Hno).
  repeat split.
  cbn [Serial_out Serial_println Serial_print set_SerialBT_rx].
  now rewrite !append_assoc.
Qed.

Lemma prefix_match_is_exact_witness :
  servo_writes (processCommands (with_rx ("s14:90" ++ LF))) = [] /\
  SerialBT_tx (processCommands (with_rx ("s14:90" ++ LF))) = [].
Proof.
  assert (forall body, trim "s14:90" <> "S14:" ++ body) as Hnot
    by (intros body H; discriminate H).
  pose proof (prefix_match_is_exact (with_rx ("s14:90" ++ LF)) "s14:90" []
                eq_refl eq_refl Hnot) as (_ & (A & _ & B & _) & _).
  split; [exact A | exact B].
Defined.

(** C4: while no peer is attached, nothing is written to the link, no
    buffered byte is read, the servo and the angle are left alone and no
    frame is taken, however many cycles pass and whatever arrives in the
    meantime.  The first cycle that finds a peer takes the first queued
    line out of the buffer; when that line is a set-angle command its
    clamped angle is applied, written to the servo and acknowledged, and
    the frame follows the acknowledgment on the link.  The cycles after
    it serve the rest of the queue, one command each, in order. *)
Theorem no_peer_no_traffic
    (boot : BootEnv) (evs : list Event) (w : World) (fb : camera_fb_t)
    (Hidle : Forall peerless evs) :
  let s := run boot evs (Running, w) in
  let queued := SerialBT_receive (received evs) w in
  let attached := loop (active (Some fb)) (snd s) in
  fst s = Running /\
  (SerialBT_tx (snd s) = SerialBT_tx w /\
   SerialBT_rx (snd s) = (SerialBT_rx w ++ received evs)%list /\
   servo_writes (snd s) = servo_writes w /\
   currentServoAngle (snd s) = currentServoAngle w /\
   fb_taken (snd s) = fb_taken w) /\
  (SerialBT_tx attached
   = (SerialBT_tx (processCommands queued) ++ frame_bytes fb)%list /\
   SerialBT_rx attached = SerialBT_rx (processCommands queued) /\
   servo_writes attached = servo_writes (processCommands queued) /\
   currentServoAngle attached = currentServoAngle (processCommands queued) /\
   fb_taken attached = S (fb_taken w)) /\
  (forall t rest,
      (SerialBT_rx w ++ received evs)%list
      = (bytes ("S14:" ++ decimal t) ++ newline :: rest)%list ->
      currentServoAngle attached = Z.max 0 (Z.min 180 t) /\
      servo_writes attached
      = (servo_writes w ++ [Z.max 0 (Z.min 180 t)])%list /\
      SerialBT_tx attached
      = (SerialBT_tx w ++ acknowledgment (Z.max 0 (Z.min 180 t))
           ++ frame_bytes fb)%list /\
      SerialBT_rx attached = rest) /\
  (forall line rest,
      one_line line = true ->
      (SerialBT_rx w ++ received evs)%list
      = (bytes line ++ newline :: rest)%list ->
      SerialBT_rx attached = rest) /\
  (forall ts rest envs,
      Forall (fun env => SerialBT_hasClient env = true) envs ->
      List.length envs = List.length ts ->
      (SerialBT_rx w ++ received evs)%list
      = (command_lines ts ++ rest)%list ->
      servo_writes (cycles envs (snd s))
      = (servo_writes w ++ map (fun t => Z.max 0 (Z.min 180 t)) ts)%list /\
      SerialBT_rx (cycles envs (snd s)) = rest).
Proof.
  cbv zeta.
  destruct (run_peerless boot evs w Hidle) as (P1 & P2 & P3).
  pose proof P2 as (U1 & U2 & U3 & U4 & U5 & U6).
  set (wi := snd (run boot evs (Running, w))) in *.
  destruct (loop_frame_effect fb wi) as (Fa & Fw & Frx & Ftx & Ft & _).
  split; [exact P1|]. split; [now repeat split|].
  split; [|split; [|split]].
  - assert (same_link wi (SerialBT_receive (received evs) w)) as L.
    { unfold same_link. cbn. auto. }
    apply processCommands_same_link in L.
    destruct L as (La & _ & Lw & Lrx & Ltx).
    rewrite Fa, Fw, Frx, Ftx, Ft, La, Lw, Lrx, Ltx.
    rewrite (proj1 (processCommands_camera _)), U5.
    now repeat split.
  - intros t rest H. rewrite <- P3 in H.
    destruct (processCommands_set_angle t wi rest H) as (A & B & C & D).
    rewrite Fa, Fw, Frx, Ftx, A, B, C, D, U1, U3.
    unfold acknowledgment. rewrite <- app_assoc. now repeat split.
  - intros line rest Hline H. rewrite <- P3 in H. rewrite Frx.
    pose proof (rx_line_nonempty _ _ _ H) as Hne.
    pose proof (read_until_line line rest Hline) as Hread.
    rewrite <- H in Hread.
    destruct (startsWith (trim line) "S14:") eqn:E.
    + now rewrite (processCommands_recognized _ _ _ Hne Hread E).
    + now rewrite (processCommands_unknown _ _ _ Hne Hread E).
  - intros ts rest envs Hpeer Hlen H. rewrite <- P3 in H.
    destruct (cycles_apply_commands ts envs wi rest Hpeer Hlen H) as [A B].
    rewrite A, B, U3. now split.
Qed.

Lemma no_peer_no_traffic_witness :
  let boot := {| esp_camera_init := 0; esp_read_mac := [];
                 SerialBT_begin := true |} in
  let evs := [Receive (bytes ("S14:30" ++ LF)); Tick (idle None);
              Tick (idle None)] in
  let fb := {| buf := bytes "JFIF" |} in
  let waiting := snd (run boot evs (Running, power_on)) in
  (SerialBT_tx waiting = [] /\
   SerialBT_rx waiting = bytes ("S14:30" ++ LF)) /\
  (currentServoAngle (loop (active (Some fb)) waiting) = 30 /\
   servo_writes (loop (active (Some fb)) waiting) = [30] /\
   SerialBT_tx (loop (active (Some fb)) waiting)
   = (acknowledgment 30 ++ frame_bytes fb)%list /\
   SerialBT_rx (loop (active (Some fb)) waiting) = []).
Proof.
  cbv zeta.
  pose proof (no_peer_no_traffic
                {| esp_camera_init := 0; esp_read_mac := [];
                   SerialBT_begin := true |}
                [Receive (bytes ("S14:30" ++ LF)); Tick (idle None);
                 Tick (idle None)]
                power_on {| buf := bytes "JFIF" |}
                ltac:(repeat constructor))
    as (_ & (A & B & _) & _ & C & _).
  split; [split; [exact A | exact B]|].
  exact (C 30 [] eq_refl).
Defined.

(** C5, as the code has it: a cycle whose capture fails sends no frame
    byte, takes no frame buffer, waits 1000 ms and ends, after having
    processed one command line exactly as a successful cycle does.  When
    the capture fails twice and then succeeds, with three commands at the
    front of the queue, the link carries the three acknowledgments and
    then one frame, sent by the third cycle; each cycle has waited
    1000 ms, the three commands have reached the servo in order and what
    was queued behind them is still in the buffer. *)
Theorem capture_failure_skips_only_the_frame
    (w : World) (fb : camera_fb_t) (t1 t2 t3 : Z) (rest : list byte)
    (Hrx : SerialBT_rx w
           = (bytes ("S14:" ++ decimal t1) ++ newline ::
              bytes ("S14:" ++ decimal t2) ++ newline ::
              bytes ("S14:" ++ decimal t3) ++ newline :: rest)%list) :
  let w1 := loop (active None) w in
  let w2 := loop (active None) w1 in
  let w3 := loop (active (Some fb)) w2 in
  let a1 := Z.max 0 (Z.min 180 t1) in
  let a2 := Z.max 0 (Z.min 180 t2) in
  let a3 := Z.max 0 (Z.min 180 t3) in
  w1 = delay 1000 (Serial_println "Camera capture failed" (processCommands w)) /\
  (SerialBT_tx w1 = (SerialBT_tx w ++ acknowledgment a1)%list /\
   fb_taken w1 = fb_taken w) /\
  (SerialBT_tx w2
   = (SerialBT_tx w ++ acknowledgment a1 ++ acknowledgment a2)%list /\
   fb_taken w2 = fb_taken w) /\
  (SerialBT_tx w3
   = (SerialBT_tx w ++ acknowledgment a1 ++ acknowledgment a2
        ++ acknowledgment a3 ++ frame_bytes fb)%list /\
   fb_taken w3 = S (fb_taken w)) /\
  servo_writes w3 = (servo_writes w ++ [a1; a2; a3])%list /\
  currentServoAngle w3 = a3 /\
  SerialBT_rx w3 = rest /\
  (delays w1 = (delays w ++ [1000])%list /\
   delays w2 = (delays w ++ [1000; 1000])%list /\
   delays w3 = (delays w ++ [1000; 1000; 1000])%list) /\
  (servo_writes w1 = (servo_writes w ++ [a1])%list /\
   SerialBT_rx w1
   = (bytes ("S14:" ++ decimal t2) ++ newline ::
      bytes ("S14:" ++ decimal t3) ++ newline :: rest)%list) /\
  (forall w0 fb0,
      servo_writes (loop (active None) w0)
      = servo_writes (loop (active (Some fb0)) w0) /\
      currentServoAngle (loop (active None) w0)
      = currentServoAngle (loop (active (Some fb0)) w0) /\
      SerialBT_rx (loop (active None) w0)
      = SerialBT_rx (loop (active (Some fb0)) w0) /\
      SerialBT_tx (loop (active (Some fb0)) w0)
      = (SerialBT_tx (loop (active None) w0) ++ frame_bytes fb0)%list).
Proof.
  cbv zeta.
  set (w1 := loop (active None) w).
  set (w2 := loop (active None) w1).
  destruct (processCommands_set_angle t1 w _ Hrx) as (A1 & S1 & T1 & R1).
  pose proof (loop_failed_same_link w) as L1. fold w1 in L1.
  destruct L1 as (La1 & Lp1 & Lw1 & Lrx1 & Ltx1).
  assert (fb_taken w1 = fb_taken w) as C1.
  { unfold w1. rewrite loop_capture_failed by reflexivity. cbn.
    apply processCommands_camera. }
  assert (delays w1 = (delays w ++ [1000])%list) as D1
    by (apply loop_active_delays; reflexivity).
  rewrite R1 in Lrx1.
  destruct (processCommands_set_angle t2 w1 _ Lrx1) as (A2 & S2 & T2 & R2).
  pose proof (loop_failed_same_link w1) as L2. fold w2 in L2.
  destruct L2 as (La2 & Lp2 & Lw2 & Lrx2 & Ltx2).
  assert (fb_taken w2 = fb_taken w) as C2.
  { unfold w2. rewrite loop_capture_failed by reflexivity. cbn.
    rewrite (proj1 (processCommands_camera _)). exact C1. }
  assert (delays w2 = (delays w ++ [1000; 1000])%list) as D2.
  { unfold w2. rewrite loop_active_delays by reflexivity.
    rewrite D1. now rewrite <- app_assoc. }
  assert (delays (loop (active (Some fb)) w2)
          = (delays w ++ [1000; 1000; 1000])%list) as D3.
  { rewrite loop_active_delays by reflexivity.
    rewrite D2. now rewrite <- app_assoc. }
  rewrite R2 in Lrx2.
  destruct (processCommands_set_angle t3 w2 _ Lrx2) as (A3 & S3 & T3 & R3).
  destruct (loop_frame_effect fb w2) as (Fa & Fw & Frx & Ftx & Ft & _).
  unfold acknowledgment.
  split; [unfold w1; now rewrite loop_capture_failed by reflexivity|].
  split; [split; [congruence | exact C1]|].
  split; [split; [|exact C2]|].
  { rewrite Ltx2, T2, Ltx1, T1. now rewrite <- !app_assoc. }
  split; [split|].
  { rewrite Ftx, T3, Ltx2, T2, Ltx1, T1. now rewrite <- !app_assoc. }
  { rewrite Ft, (proj1 (processCommands_camera _)). now rewrite C2. }
  split; [|split; [|split; [|split; [|split]]]].
  - rewrite Fw, S3, Lw2, S2, Lw1, S1. now rewrite <- !app_assoc.
  - now rewrite Fa.
  - now rewrite Frx.
  - split; [exact D1|]. split; [exact D2 | exact D3].
  - split; [now rewrite Lw1 | exact Lrx1].
  - intros w0 fb0.
    destruct (loop_failed_same_link w0) as (Ga & _ & Gw & Grx & Gtx).
    destruct (loop_frame_effect fb0 w0) as (Ha & Hw & Hr & Ht & _).
    rewrite Ga, Gw, Grx, Gtx, Ha, Hw, Hr, Ht. now repeat split.
Qed.

Lemma capture_failure_skips_only_the_frame_witness :
  let w := with_rx ("S14:10" ++ LF ++ "S14:200" ++ LF ++ "S14:-7" ++ LF) in
  let fb := {| buf := bytes "JFIF" |} in
  servo_writes
    (loop (active (Some fb)) (loop (active None) (loop (active None) w)))
  = [10; 180; 0] /\
  delays (loop (active None) w) = [1000].
Proof.
  cbv zeta.
  pose proof (capture_failure_skips_only_the_frame
                (with_rx ("S14:10" ++ LF ++ "S14:200" ++ LF ++ "S14:-7" ++ LF))
                {| buf := bytes "JFIF" |} 10 200 (-7) [] eq_refl)
    as (_ & _ & _ & _ & A & _ & _ & (D & _) & _).
  split; [exact A | exact D].
Defined.

(** C5, as the claim states it, fails: a cycle does not drain the queue.
    With four commands buffered and captures that fail, fail and succeed,
    the first failing cycle serves only the first command, and the frame
    of the third cycle is sent while the fourth command is still waiting
    in the buffer. *)
Lemma failing_cycle_serves_one_command :
  let w := with_rx ("S14:10" ++ LF ++ "S14:20" ++ LF ++ "S14:30" ++ LF
                      ++ "S14:40" ++ LF) in
  let fb := {| buf := bytes "JFIF" |} in
  let w1 := loop (active None) w in
  let w3 := loop (active (Some fb)) (loop (active None) w1) in
  SerialBT_rx w1 = bytes ("S14:20" ++ LF ++ "S14:30" ++ LF ++ "S14:40" ++ LF) /\
  servo_writes w1 = [10] /\
  SerialBT_rx w3 = bytes ("S14:40" ++ LF) /\
  servo_writes w3 = [10; 20; 30] /\
  SerialBT_tx w3
  = (acknowledgment 10 ++ acknowledgment 20 ++ acknowledgment 30
       ++ frame_bytes fb)%list.
Proof.
  cbv zeta. repeat split; now vm_compute.
Qed.

(** C8: when the camera driver reports an error, [setup] never returns:
    the firmware is halted from its first step on and every later event
    leaves it halted.  Nothing is ever written to the link, no frame is
    taken, the servo is neither attached nor moved, and the bytes a peer
    might send only pile up unread. *)
Theorem camera_init_failure_is_permanent
    (boot : BootEnv) (evs : list Event) (env : CycleEnv)
    (Hfail : esp_camera_init boot <> ESP_OK) :
  let s := run boot evs (Boot, power_on) in
  (exists w, setup boot power_on = Spinning w) /\
  fst (run boot (Tick env :: evs) (Boot, power_on)) = Halted /\
  (forall ev w, fst (step boot ev (Halted, w)) = Halted) /\
  fst s <> Running /\
  SerialBT_tx (snd s) = [] /\
  fb_taken (snd s) = 0%nat /\
  servo_pin (snd s) = None /\
  servo_writes (snd s) = [] /\
  currentServoAngle (snd s) = 90 /\
  SerialBT_rx (snd s) = received evs.
Proof.
  cbv zeta.
  destruct (run_boot_camera_failure boot evs power_on Hfail)
    as (P1 & (U1 & U2 & U3 & U4 & U5 & _) & P3).
  split; [eexists; now apply setup_camera_failure|].
  split.
  { cbn [run fold_left step]. rewrite (setup_camera_failure _ _ Hfail).
    match goal with |- context [(Halted, ?w1)] =>
      exact (proj1 (run_halted boot evs w1)) end. }
  split; [intros [e | bs] w0; reflexivity|].
  now repeat split.
Qed.

Lemma camera_init_failure_is_permanent_witness :
  let boot := {| esp_camera_init := 261; esp_read_mac := [];
                 SerialBT_begin := true |} in
  let evs := [Tick (active None); Receive (bytes ("S14:30" ++ LF));
              Tick (active (Some {| buf := bytes "JFIF" |}))] in
  fst (run boot evs (Boot, power_on)) <> Running /\
  SerialBT_tx (snd (run boot evs (Boot, power_on))) = [].
Proof.
  cbv zeta.
  pose proof (camera_init_failure_is_permanent
                {| esp_camera_init := 261; esp_read_mac := [];
                   SerialBT_begin := true |}
                [Tick (active None); Receive (bytes ("S14:30" ++ LF));
                 Tick (active (Some {| buf := bytes "JFIF" |}))]
                (active None) ltac:(discriminate))
    as (_ & _ & _ & A & B & _).
  split; [exact A | exact B].
Defined.

(** C9: [currentServoAngle] starts at 90 and lies in 0..180 in every
    state the firmware can reach, whatever the hardware answers and
    whatever bytes arrive; the same holds for every angle written to the
    servo. *)
Theorem angle_always_in_range
    (boot : BootEnv) (s : Phase * World) (Hreach : reachable boot s) :
  currentServoAngle power_on = 90 /\
  0 <= currentServoAngle (snd s) <= 180 /\
  Forall (fun a => 0 <= a <= 180) (servo_writes (snd s)).
Proof.
  split; [reflexivity|]. exact (reachable_angle_ok boot s Hreach).
Qed.

Lemma angle_always_in_range_witness :
  let boot := {| esp_camera_init := 0; esp_read_mac := [];
                 SerialBT_begin := true |} in
  let s := step boot (Tick (active None))
             (step boot (Receive (bytes ("S14:999" ++ LF)))
                (step boot (Tick (active None)) (Boot, power_on))) in
  0 <= currentServoAngle (snd s) <= 180.
Proof.
  cbv zeta.
  refine (proj1 (proj2 (angle_always_in_range _ _ _))).
  apply reachable_step, reachable_step, reachable_step, reachable_power_on.
Defined.

End Protocol.

(** ** Further properties of the sketch *)

Section Sketch.

Local Open Scope string_scope.
Local Open Scope Z_scope.

Lemma Serial_print_nothing w : Serial_print EmptyString w = w.
Proof. destruct w. unfold Serial_print. cbn. now rewrite append_empty_r. Qed.

Lemma Serial_print_twice a b w :
  Serial_print b (Serial_print a w) = Serial_print (a ++ b) w.
Proof. unfold Serial_print. cbn. now rewrite append_assoc. Qed.

(** Printing the address touches nothing but the debug output. *)
Lemma print_mac_bytes_only_logs mac : forall w,
  exists txt, print_mac_bytes mac w = Serial_print txt w.
Proof.
  induction mac as [|b mac IH]; intros w; cbn [print_mac_bytes].
  - exists EmptyString. now rewrite Serial_print_nothing.
  - match goal with |- context [print_mac_bytes mac ?v] =>
      destruct (IH v) as [txt ->] end.
    destruct mac; destruct (b <? 16);
      rewrite ?Serial_print_twice; eexists; reflexivity.
Qed.

Lemma read_until_no_longer t rx :
  (List.length (snd (read_until t rx)) <= List.length rx)%nat.
Proof.
  induction rx as [|b rx IH]; cbn [read_until]; [apply Nat.le_refl|].
  destruct (Byte.eqb b t); cbn [snd List.length]; [lia|].
  destruct (read_until t rx) as [s r]. cbn [snd] in *. lia.
Qed.

Lemma processCommands_rx w :
  SerialBT_rx (processCommands w)
  = match SerialBT_rx w with
    | [] => []
    | _ :: _ => snd (read_until newline (SerialBT_rx w))
    end.
Proof.
  destruct (SerialBT_rx w) as [|b rx] eqn:E.
  - now rewrite (processCommands_nothing w E).
  - assert (SerialBT_rx w <> []) as Hne by (rewrite E; discriminate).
    destruct (read_until newline (SerialBT_rx w)) as [line rest] eqn:R.
    rewrite <- E, R. cbn [snd].
    destruct (startsWith (trim line) "S14:") eqn:S.
    + now rewrite (processCommands_recognized _ _ _ Hne R S).
    + now rewrite (processCommands_unknown _ _ _ Hne R S).
Qed.

Lemma processCommands_rx_shrinks w :
  (List.length (SerialBT_rx (processCommands w))
   <= Nat.pred (List.length (SerialBT_rx w)))%nat.
Proof.
  rewrite processCommands_rx.
  destruct (SerialBT_rx w) as [|b rx]; [apply Nat.le_refl|].
  cbn [read_until]. destruct (Byte.eqb b newline); cbn [snd List.length Nat.pred].
  - apply Nat.le_refl.
  - pose proof (read_until_no_longer newline rx).
    destruct (read_until newline rx) as [s r]. cbn [snd] in *. lia.
Qed.

(** X1: every frame buffer taken from the camera is given back before the
    cycle ends, so in every state the firmware can reach the two counts
    agree and no buffer is outstanding. *)
Theorem frame_buffers_are_returned
    (boot : BootEnv) (s : Phase * World) (Hreach : reachable boot s) :
  fb_returned (snd s) = fb_taken (snd s).
Proof.
  induction Hreach as [|s ev _ IH]; [reflexivity|].
  destruct s as [ph w]. cbn [snd] in *.
  destruct ev as [env | bs]; cbn [step]; [|exact IH].
  destruct ph; cbn [snd].
  - unfold setup, initCamera.
    destruct (negb (esp_camera_init boot =? ESP_OK)); cbn [snd]; [exact IH|].
    destruct (negb (SerialBT_begin boot)); cbn [snd];
      unfold printBTMacAddress;
      match goal with |- context [print_mac_bytes ?m ?v] =>
        destruct (print_mac_bytes_only_logs m v) as [txt ->] end;
      exact IH.
  - exact IH.
  - unfold loop. destruct (negb (SerialBT_hasClient env)); [exact IH|].
    destruct (processCommands_camera w) as [A B].
    destruct (esp_camera_fb_get env); cbn; rewrite A, B; congruence.
Qed.

Lemma frame_buffers_are_returned_witness :
  let boot := {| esp_camera_init := 0; esp_read_mac := [];
                 SerialBT_begin := true |} in
  let s := step boot (Tick (active (Some {| buf := bytes "JFIF" |})))
             (step boot (Tick (active None)) (Boot, power_on)) in
  fb_returned (snd s) = fb_taken (snd s).
Proof.
  cbv zeta. refine (frame_buffers_are_returned _ _ _).
  apply reachable_step, reachable_step, reachable_power_on.
Defined.


(** X3: command processing never adds to the inbound buffer and always
    takes at least one byte from a non-empty one; with a peer attached and
    nothing new arriving, as many cycles as there are buffered bytes leave
    the buffer empty. *)
Theorem buffered_commands_are_eventually_read
    (envs : list CycleEnv) (w : World)
    (Hpeer : Forall (fun env => SerialBT_hasClient env = true) envs)
    (Hlen : (List.length (SerialBT_rx w) <= List.length envs)%nat) :
  SerialBT_rx (cycles envs w) = [] /\
  (SerialBT_rx w <> [] ->
   (List.length (SerialBT_rx (processCommands w))
    < List.length (SerialBT_rx w))%nat).
Proof.
  split.
  - revert w Hlen. induction Hpeer as [|env envs Henv _ IH]; intros w Hlen.
    + cbn in *. destruct (SerialBT_rx w); [reflexivity | cbn in Hlen; lia].
    + cbn [cycles fold_left]. apply IH.
      destruct (loop_active_commands env w Henv) as (_ & _ & _ & ->).
      pose proof (processCommands_rx_shrinks w). cbn [List.length] in Hlen.
      lia.
  - intros Hne. pose proof (processCommands_rx_shrinks w).
    destruct (SerialBT_rx w); [now contradiction Hne | cbn in *; lia].
Qed.

Lemma buffered_commands_are_eventually_read_witness :
  SerialBT_rx
    (cycles [active None; active None; active None; active None]
       (with_rx ("a" ++ LF ++ "b" ++ LF)))
  = [].
Proof.
  refine (proj1 (buffered_commands_are_eventually_read _ _ _ _)).
  - repeat constructor.
  - cbn. lia.
Defined.

Lemma processCommands_servo w :
  servo_pin (processCommands w) = servo_pin w /\
  (servo_writes (processCommands w) = servo_writes w /\
   currentServoAngle (processCommands w) = currentServoAngle w
   \/ servo_writes (processCommands w)
      = (servo_writes w ++ [currentServoAngle (processCommands w)])%list).
Proof.
  unfold processCommands, SerialBT_readStringUntil.
  destruct (negb (SerialBT_available w =? 0)); [|auto].
  destruct (read_until newline (SerialBT_rx w)) as [line rest].
  destruct (startsWith (trim line) "S14:"); cbn; auto.
Qed.

(** X4: once [setup] has returned, the servo is attached to GPIO 14 and
    the last angle written to it is the value of [currentServoAngle], in
    every state the firmware can reach; before that, and for ever when the
    camera failed, the servo is neither attached nor written. *)
Theorem servo_follows_current_angle
    (boot : BootEnv) (s : Phase * World) (Hreach : reachable boot s) :
  match fst s with
  | Running =>
      servo_pin (snd s) = Some 14 /\
      last (servo_writes (snd s)) 0 = currentServoAngle (snd s)
  | Boot | Halted =>
      servo_pin (snd s) = None /\ servo_writes (snd s) = []
  end.
Proof.
  induction Hreach as [|s ev _ IH]; [now split|].
  destruct s as [ph w]. cbn [fst snd] in *.
  destruct ev as [env | bs]; cbn [step].
  - destruct ph; cbn [fst snd].
    + unfold setup, initCamera.
      destruct (negb (esp_camera_init boot =? ESP_OK)); cbn [fst snd];
        [exact IH|].
      destruct (negb (SerialBT_begin boot)); cbn [fst snd];
        unfold printBTMacAddress;
        match goal with |- context [print_mac_bytes ?m ?v] =>
          destruct (print_mac_bytes_only_logs m v) as [txt ->] end;
        cbn; (split; [reflexivity | apply last_last]).
    + exact IH.
    + destruct IH as [Hp Hl]. unfold loop.
      destruct (negb (SerialBT_hasClient env)); [now split|].
      destruct (processCommands_servo w) as [Pp [[Pw Pa] | Pw]].
      * destruct (esp_camera_fb_get env); cbn; rewrite Pp, Pw, Pa; now split.
      * destruct (esp_camera_fb_get env); cbn; rewrite Pp, Pw;
          (split; [exact Hp | apply last_last]).
  - destruct ph; exact IH.
Qed.

Lemma servo_follows_current_angle_witness :
  let boot := {| esp_camera_init := 0; esp_read_mac := [];
                 SerialBT_begin := false |} in
  let s := step boot (Tick (active None))
             (step boot (Receive (bytes ("S14:33" ++ LF)))
                (step boot (Tick (active None)) (Boot, power_on))) in
  last (servo_writes (snd s)) 0 = 33 /\ currentServoAngle (snd s) = 33.
Proof.
  cbv zeta.
  pose proof (servo_follows_current_angle
                {| esp_camera_init := 0; esp_read_mac := [];
                   SerialBT_begin := false |} _
                (reachable_step _ _ (Tick (active None))
                   (reachable_step _ _ (Receive (bytes ("S14:33" ++ LF)))
                      (reachable_step _ _ (Tick (active None))
                         (reachable_power_on _))))) as H.
  cbn [fst] in H. destruct H as [_ H]. split; [|reflexivity].
  rewrite H. reflexivity.
Defined.

(** X5: queued set-angle commands are applied in the order they were
    sent, one per cycle with a peer, whether the captures fail or not:
    after as many such cycles as there are commands, the servo has been
    given each clamped target in turn and the bytes that followed the
    commands are still buffered. *)
Theorem commands_are_applied_in_order
    (ts : list Z) (envs : list CycleEnv) (w : World) (rest : list byte)
    (Hpeer : Forall (fun env => SerialBT_hasClient env = true) envs)
    (Hlen : List.length envs = List.length ts)
    (Hrx : SerialBT_rx w = (command_lines ts ++ rest)%list) :
  servo_writes (cycles envs w)
  = (servo_writes w ++ map (fun t => Z.max 0 (Z.min 180 t)) ts)%list /\
  SerialBT_rx (cycles envs w) = rest.
Proof.
  revert envs w Hpeer Hlen Hrx.
  induction ts as [|t ts IH]; intros envs w Hpeer Hlen Hrx.
  - destruct envs; [|discriminate Hlen]. cbn. now rewrite app_nil_r.
  - destruct envs as [|env envs]; [discriminate Hlen|].
    inversion Hpeer as [|? ? Henv Hrest]; subst.
    cbn [command_lines] in Hrx. rewrite <- app_assoc in Hrx. cbn [app] in Hrx.
    destruct (processCommands_set_angle t w _ Hrx) as (_ & S1 & _ & R1).
    destruct (loop_active_commands env w Henv) as (_ & _ & Lw & Lrx).
    cbn [cycles fold_left].
    destruct (IH envs (loop env w) Hrest) as [A B].
    + now injection Hlen.
    + now rewrite Lrx.
    + unfold cycles in *. rewrite A, B, Lw, S1. cbn [map].
      now rewrite <- app_assoc.
Qed.

Lemma commands_are_applied_in_order_witness :
  servo_writes
    (cycles [active None; active (Some {| buf := [] |}); active None]
       (SerialBT_receive (command_lines [200; -3; 45]) power_on))
  = [180; 0; 45].
Proof.
  refine (proj1 (commands_are_applied_in_order [200; -3; 45] _ _ [] _ _ _)).
  - repeat constructor.
  - reflexivity.
  - reflexivity.
Defined.



Lemma app_same_length {A} (a b r1 r2 : list A) :
  List.length a = List.length b -> (a ++ r1 = b ++ r2)%list ->
  a = b /\ r1 = r2.
Proof.
  revert b. induction a as [|x a IH]; intros [|y b] Hl H;
    try discriminate Hl.
  - now split.
  - cbn in H. injection H as -> H. injection Hl as Hl.
    destruct (IH b Hl H) as [-> ->]. now split.
Qed.

(** X7: the framing is unambiguous.  If the bytes of a frame followed by
    anything equal the bytes of another frame followed by anything, the
    two payloads are equal and so is what follows them: a reader of the
    stream can never cut a frame at the wrong place. *)
Theorem framing_is_prefix_free
    (fb1 fb2 : camera_fb_t) (r1 r2 : list byte)
    (H1 : len fb1 < 2 ^ 32) (H2 : len fb2 < 2 ^ 32)
    (Hsame : (frame_bytes fb1 ++ r1 = frame_bytes fb2 ++ r2)%list) :
  buf fb1 = buf fb2 /\ r1 = r2.
Proof.
  rewrite (frame_bytes_payload fb1 H1), (frame_bytes_payload fb2 H2) in Hsame.
  rewrite <- !app_assoc in Hsame.
  destruct (app_same_length (uint32_bytes (len fb1)) (uint32_bytes (len fb2))
              _ _ eq_refl Hsame) as [Hh Hrest].
  apply (f_equal uint32_of_bytes) in Hh.
  assert (0 <= len fb1 /\ 0 <= len fb2) as [P1 P2] by (unfold len; lia).
  rewrite !uint32_roundtrip in Hh by lia.
  apply app_same_length; [|exact Hrest].
  unfold len in Hh. lia.
Qed.

Lemma framing_is_prefix_free_witness :
  buf {| buf := bytes "ab" |} = bytes "ab" /\ bytes "cd" = bytes "cd".
Proof.
  exact (framing_is_prefix_free {| buf := bytes "ab" |}
           {| buf := bytes "ab" |} (bytes "cd") (bytes "cd")
           eq_refl eq_refl eq_refl).
Defined.

Lemma mac_byte_text_hex b : 0 <= b < 256 -> mac_byte_text b = hex_pair b.
Proof.
  intros Hb.
  assert (forallb (fun n => String.eqb (mac_byte_text (Z.of_nat n))
                              (hex_pair (Z.of_nat n))) (seq 0 256) = true)
    as Hall by (vm_compute; reflexivity).
  rewrite forallb_forall in Hall.
  specialize (Hall (Z.to_nat b)). rewrite Z2Nat.id in Hall by lia.
  apply String.eqb_eq, Hall, in_seq. lia.
Qed.

Lemma print_mac_bytes_text mac : forall w,
  Forall (fun b => 0 <= b < 256) mac ->
  print_mac_bytes mac w = Serial_print (join_colon (map hex_pair mac)) w.
Proof.
  induction mac as [|b mac IH]; intros w H.
  - cbn. now rewrite Serial_print_nothing.
  - inversion H as [|? ? Hb Hrest]; subst. cbn [print_mac_bytes].
    rewrite (IH _ Hrest). cbn [map].
    assert (join_colon (hex_pair b :: map hex_pair mac)
            = mac_byte_text b
                ++ match mac with
                   | [] => EmptyString
                   | _ :: _ => String ":" (join_colon (map hex_pair mac))
                   end) as ->.
    { rewrite (mac_byte_text_hex b Hb).
      destruct mac; cbn [map join_colon]; [now rewrite append_empty_r|].
      reflexivity. }
    unfold mac_byte_text.
    destruct mac as [|b' mac]; destruct (b <? 16);
      cbn [map join_colon]; rewrite ?Serial_print_twice, ?Serial_print_nothing;
      cbn [append]; rewrite ?append_empty_r, ?append_assoc; reflexivity.
Qed.

(** X8: the address is printed on one line as "ESP32 Bluetooth MAC: "
    followed by its bytes as two upper-case hexadecimal digits each, a
    byte below 16 with a leading zero, separated by colons; for the six
    bytes of an address that is 17 characters.  Nothing but the debug
    output changes. *)
Theorem mac_address_is_printed_in_hex_pairs
    (env : BootEnv) (w : World)
    (Hbytes : Forall (fun b => 0 <= b < 256) (esp_read_mac env)) :
  printBTMacAddress env w
  = Serial_print
      ("ESP32 Bluetooth MAC: "
         ++ join_colon (map hex_pair (esp_read_mac env)) ++ CRLF) w /\
  (List.length (esp_read_mac env) = 6%nat ->
   String.length (join_colon (map hex_pair (esp_read_mac env))) = 17%nat).
Proof.
  split.
  - unfold printBTMacAddress, Serial_println.
    rewrite (print_mac_bytes_text _ _ Hbytes), !Serial_print_twice.
    reflexivity.
  - destruct (esp_read_mac env) as [|b0 [|b1 [|b2 [|b3 [|b4 [|b5 [|b6 m]]]]]]];
      intros H; try discriminate H. reflexivity.
Qed.

Lemma mac_address_is_printed_in_hex_pairs_witness :
  Serial_out
    (printBTMacAddress
       {| esp_camera_init := 0; esp_read_mac := [36; 10; 196; 0; 255; 7];
          SerialBT_begin := true |} power_on)
  = "ESP32 Bluetooth MAC: 24:0A:C4:00:FF:07" ++ CRLF.
Proof.
  refine (f_equal Serial_out (proj1
    (mac_address_is_printed_in_hex_pairs
       {| esp_camera_init := 0; esp_read_mac := [36; 10; 196; 0; 255; 7];
          SerialBT_begin := true |} power_on _))).
  repeat constructor; lia.
Defined.

Lemma run_running boot evs : forall w,
  fst (run boot evs (Running, w)) = Running.
Proof.
  induction evs as [|ev evs IH]; intros w; [reflexivity|].
  cbn [run fold_left]. destruct ev; cbn [step]; apply IH.
Qed.

(** X9: when the camera starts, [setup] returns whether Bluetooth starts
    or not.  It has attached the servo to GPIO 14 and written the current
    angle to it once; the angle, both directions of the link and the
    pauses are as before, and from the first step on the firmware runs
    [loop] for ever. *)
Theorem setup_returns_when_camera_starts
    (boot : BootEnv) (w : World) (Hok : esp_camera_init boot = ESP_OK) :
  exists w',
    setup boot w = Returned w' /\
    servo_pin w' = Some 14 /\
    servo_writes w' = (servo_writes w ++ [currentServoAngle w])%list /\
    currentServoAngle w' = currentServoAngle w /\
    SerialBT_tx w' = SerialBT_tx w /\
    SerialBT_rx w' = SerialBT_rx w /\
    delays w' = delays w /\
    forall env evs, fst (run boot (Tick env :: evs) (Boot, w)) = Running.
Proof.
  assert (exists w', setup boot w = Returned w' /\
            servo_pin w' = Some 14 /\
            servo_writes w' = (servo_writes w ++ [currentServoAngle w])%list /\
            currentServoAngle w' = currentServoAngle w /\
            SerialBT_tx w' = SerialBT_tx w /\
            SerialBT_rx w' = SerialBT_rx w /\
            delays w' = delays w) as (w' & E & H).
  { unfold setup, initCamera. rewrite Hok. cbn [Z.eqb ESP_OK negb].
    unfold printBTMacAddress.
    match goal with |- context [print_mac_bytes ?m ?v] =>
      destruct (print_mac_bytes_only_logs m v) as [txt ->] end.
    destruct (negb (SerialBT_begin boot)); eexists;
      (split; [reflexivity|]); cbn; now repeat split. }
  exists w'. split; [exact E|].
  destruct H as (A & B & C & D & F & G).
  repeat (split; [assumption|]).
  intros env evs. cbn [run fold_left step]. rewrite E. apply run_running.
Qed.

Lemma setup_returns_when_camera_starts_witness :
  exists w',
    setup {| esp_camera_init := 0; esp_read_mac := [1; 2; 3; 4; 5; 6];
             SerialBT_begin := false |} power_on = Returned w' /\
    servo_writes w' = [90].
Proof.
  destruct (setup_returns_when_camera_starts
              {| esp_camera_init := 0; esp_read_mac := [1; 2; 3; 4; 5; 6];
                 SerialBT_begin := false |} power_on eq_refl)
    as (w' & E & _ & S & _).
  exists w'. split; [exact E | exact S].
Defined.

Lemma run_halted_log boot evs : forall w,
  Serial_out (snd (run boot evs (Halted, w))) = Serial_out w /\
  delays (snd (run boot evs (Halted, w)))
  = (delays w ++ repeat 1000 (ticks evs))%list.
Proof.
  induction evs as [|ev evs IH]; intros w; cbn [run fold_left].
  - cbn. now rewrite app_nil_r.
  - destruct ev as [env | bs]; cbn [step ticks repeat].
    + destruct (IH (halt_turn w)) as [A B]. unfold run in *.
      rewrite A, B. cbn. now rewrite <- app_assoc.
    + destruct (IH (SerialBT_receive bs w)) as [A B]. unfold run in *.
      now rewrite A, B.
Qed.

(** X10: a camera failure is reported once, as "Camera init failed with
    error 0x" followed by the error code in lower-case hexadecimal and no
    line end; after that the debug output stays as it is and the firmware
    only sleeps, 1000 ms for each turn of its halt loop. *)
Theorem camera_failure_is_reported_once
    (boot : BootEnv) (env : CycleEnv) (evs : list Event)
    (Hfail : esp_camera_init boot <> ESP_OK) :
  let s := run boot (Tick env :: evs) (Boot, power_on) in
  Serial_out (snd s)
  = "Camera init failed with error 0x"
      ++ printNumber false 16 (esp_camera_init boot) /\
  delays (snd s) = repeat 1000 (ticks evs).
Proof.
  cbv zeta. cbn [run fold_left step].
  rewrite (setup_camera_failure _ _ Hfail).
  match goal with |- context [(Halted, ?w1)] =>
    destruct (run_halted_log boot evs w1) as [A B] end.
  unfold run in *. rewrite A, B. split; reflexivity.
Qed.

Lemma camera_failure_is_reported_once_witness :
  Serial_out
    (snd (run {| esp_camera_init := 131079; esp_read_mac := [];
                 SerialBT_begin := true |}
            [Tick (active None); Tick (active None); Tick (idle None)]
            (Boot, power_on)))
  = "Camera init failed with error 0x20007".
Proof.
  exact (proj1
    (camera_failure_is_reported_once
       {| esp_camera_init := 131079; esp_read_mac := [];
          SerialBT_begin := true |}
       (active None) [Tick (active None); Tick (idle None)]
       ltac:(discriminate))).
Defined.

Lemma read_until_unterminated line :
  one_line line = true -> read_until newline (bytes line) = (line, []).
Proof.
  induction line as [|c line IH]; intros H; [reflexivity|].
  unfold one_line in H. cbn [all_chars] in H.
  apply andb_true_iff in H as [Hc Hl]. apply negb_true_iff in Hc.
  rewrite bytes_cons. cbn [read_until].
  destruct (Byte.eqb (byte_of_ascii c) newline) eqn:E.
  - apply Byte.byte_dec_bl in E. apply (f_equal ascii_of_byte) in E.
    rewrite ascii_of_byte_of_ascii in E. subst c. discriminate Hc.
  - rewrite (IH Hl), ascii_of_byte_of_ascii. reflexivity.
Qed.

(** X11: a command does not need its line end to be acted on.  When the
    buffer holds a set-angle command that no line feed follows yet, the
    read ends on its time-out and the command is applied as it stands:
    the angle is clamped and acknowledged and the buffer is left empty. *)
Theorem unterminated_command_is_applied
    (t : Z) (w : World)
    (Hrx : SerialBT_rx w = bytes ("S14:" ++ decimal t)) :
  let w' := processCommands w in
  let applied := Z.max 0 (Z.min 180 t) in
  currentServoAngle w' = applied /\
  servo_writes w' = (servo_writes w ++ [applied])%list /\
  SerialBT_tx w' = (SerialBT_tx w ++ acknowledgment applied)%list /\
  SerialBT_rx w' = [].
Proof.
  assert (all_chars (fun c => negb (isspace c)) ("S14:" ++ decimal t) = true)
    as Hplain by (rewrite all_chars_app, decimal_no_space; reflexivity).
  assert (SerialBT_rx w <> []) as Hne by (rewrite Hrx; discriminate).
  pose proof (read_until_unterminated _ (not_space_one_line _ Hplain)) as R.
  rewrite <- Hrx in R.
  pose proof (processCommands_S14 w _ [] (decimal t) Hne R (trim_id _ Hplain))
    as H.
  cbv zeta in *. rewrite <- (append_empty_r (decimal t)) in H at 1 2 3.
  rewrite toInt_decimal, constrain_saturate in H by reflexivity.
  exact H.
Qed.

Lemma unterminated_command_is_applied_witness :
  currentServoAngle (processCommands (with_rx "S14:77")) = 77 /\
  SerialBT_rx (processCommands (with_rx "S14:77")) = [].
Proof.
  pose proof (unterminated_command_is_applied 77 (with_rx "S14:77") eq_refl)
    as (A & _ & _ & B).
  split; [exact A | exact B].
Defined.

Lemma blanks_space ws : blanks ws = true -> all_chars isspace ws = true.
Proof.
  apply all_chars_impl. intros c H. now apply andb_true_iff in H.
Qed.

Lemma blanks_one_line ws : blanks ws = true -> one_line ws = true.
Proof.
  apply all_chars_impl. intros c H. now apply andb_true_iff in H.
Qed.

Lemma skip_space_blanks ws s :
  all_chars isspace ws = true -> skip_space (ws ++ s) = skip_space s.
Proof.
  induction ws as [|c ws IH]; cbn [append all_chars]; [reflexivity|].
  intros H. apply andb_true_iff in H as [Hc Hw].
  cbn [skip_space]. rewrite Hc. now apply IH.
Qed.

Lemma drop_trailing_space_blanks ws :
  all_chars isspace ws = true -> drop_trailing_space ws = EmptyString.
Proof.
  induction ws as [|c ws IH]; cbn [all_chars drop_trailing_space];
    [reflexivity|].
  intros H. apply andb_true_iff in H as [Hc Hw]. now rewrite (IH Hw), Hc.
Qed.

Lemma drop_trailing_space_after s d ws :
  isspace d = false -> all_chars isspace ws = true ->
  drop_trailing_space (s ++ String d ws) = s ++ String d EmptyString.
Proof.
  intros Hd Hw. induction s as [|c s IH]; cbn [append drop_trailing_space].
  - now rewrite (drop_trailing_space_blanks _ Hw), Hd.
  - rewrite IH. destruct s; reflexivity.
Qed.

Lemma string_last s :
  s <> EmptyString -> exists s1 d, s = s1 ++ String d EmptyString.
Proof.
  induction s as [|c s IH]; intros H; [now contradiction H|].
  destruct s as [|c' s].
  - now exists EmptyString, c.
  - destruct IH as (s1 & d & E); [discriminate|].
    exists (String c s1), d. cbn [append]. now rewrite <- E.
Qed.

Lemma decimal_last t :
  exists s1 d, decimal t = s1 ++ String d EmptyString /\ isspace d = false.
Proof.
  destruct (string_last (decimal t)) as (s1 & d & E).
  - unfold decimal. destruct (t <? 0) eqn:Ht; [discriminate|].
    apply Z.ltb_ge in Ht.
    destruct (decimal_digits_spec t Ht) as (c & ds & -> & _). discriminate.
  - exists s1, d. split; [exact E|].
    pose proof (decimal_no_space t) as H. rewrite E, all_chars_app in H.
    apply andb_true_iff in H as [_ H]. cbn [all_chars] in H.
    apply andb_true_iff in H as [H _]. now apply negb_true_iff in H.
Qed.

(** X12: white space around a command does not matter.  Blanks, tabs or
    a carriage return before the prefix, between the colon and the number
    and after the number are all ignored: the command is applied and
    acknowledged exactly as the bare "S14:<t>" line is.  A line ended by
    carriage return and line feed is the common case. *)
Theorem white_space_around_command_is_ignored
    (t : Z) (before between after : string) (w : World) (rest : list byte)
    (Hbefore : blanks before = true)
    (Hbetween : blanks between = true)
    (Hafter : blanks after = true)
    (Hrx : SerialBT_rx w
           = (bytes (before ++ "S14:" ++ between ++ decimal t ++ after)
                ++ newline :: rest)%list) :
  let w' := processCommands w in
  let applied := Z.max 0 (Z.min 180 t) in
  currentServoAngle w' = applied /\
  servo_writes w' = (servo_writes w ++ [applied])%list /\
  SerialBT_tx w' = (SerialBT_tx w ++ acknowledgment applied)%list /\
  SerialBT_rx w' = rest.
Proof.
  set (line := before ++ "S14:" ++ between ++ decimal t ++ after) in *.
  assert (one_line line = true) as Hline.
  { unfold line, one_line. rewrite !all_chars_app.
    fold (one_line before) (one_line between) (one_line after)
         (one_line (decimal t)).
    rewrite (blanks_one_line _ Hbefore), (blanks_one_line _ Hbetween),
      (blanks_one_line _ Hafter),
      (not_space_one_line _ (decimal_no_space t)).
    reflexivity. }
  assert (trim line = "S14:" ++ (between ++ decimal t)) as Htrim.
  { unfold trim, line.
    rewrite (skip_space_blanks _ _ (blanks_space _ Hbefore)).
    destruct (decimal_last t) as (s1 & d & E & Hd). rewrite E.
    change ("S14:" ++ between ++ (s1 ++ String d EmptyString) ++ after)
      with (String "S" ("14:" ++ between ++ (s1 ++ String d EmptyString)
                          ++ after)).
    rewrite skip_space_first by reflexivity.
    replace (String "S" ("14:" ++ between ++ (s1 ++ String d EmptyString)
                           ++ after))
      with (("S14:" ++ between ++ s1) ++ String d after).
    - rewrite (drop_trailing_space_after _ _ _ Hd (blanks_space _ Hafter)).
      cbn [append]. now rewrite !append_assoc.
    - cbn [append]. now rewrite !append_assoc. }
  pose proof (rx_line_nonempty _ _ _ Hrx) as Hne.
  pose proof (read_until_line line rest Hline) as R. rewrite <- Hrx in R.
  pose proof (processCommands_S14 w line rest _ Hne R Htrim) as H.
  cbv zeta in *.
  assert (toInt (between ++ decimal t) = saturate_long t) as Hint.
  { pose proof (toInt_decimal t EmptyString eq_refl) as Hd.
    rewrite append_empty_r in Hd. rewrite <- Hd. unfold toInt.
    now rewrite (skip_space_blanks _ _ (blanks_space _ Hbetween)). }
  rewrite Hint, constrain_saturate in H. exact H.
Qed.

Lemma white_space_around_command_is_ignored_witness :
  let w := with_rx ("  S14: 200" ++ String "013" LF ++ "next") in
  currentServoAngle (processCommands w) = 180 /\
  SerialBT_rx (processCommands w) = bytes "next".
Proof.
  cbv zeta.
  pose proof (white_space_around_command_is_ignored 200
                "  " " " (String "013" EmptyString)
                (with_rx ("  S14: 200" ++ String "013" LF ++ "next"))
                (bytes "next") eq_refl eq_refl eq_refl eq_refl)
    as (A & _ & _ & B).
  split; [exact A | exact B].
Defined.

(** X13: a blank line does nothing on the link.  A line made only of
    white space, the empty line included, is trimmed to nothing and
    reported as an unknown command with no text; no acknowledgment is
    sent and the servo is not moved. *)
Theorem blank_line_is_reported_unknown
    (ws : string) (w : World) (rest : list byte)
    (Hws : blanks ws = true)
    (Hrx : SerialBT_rx w = (bytes ws ++ newline :: rest)%list) :
  let w' := processCommands w in
  Serial_out w' = Serial_out w ++ "Unknown command received: " ++ CRLF /\
  SerialBT_tx w' = SerialBT_tx w /\
  servo_writes w' = servo_writes w /\
  currentServoAngle w' = currentServoAngle w /\
  SerialBT_rx w' = rest.
Proof.
  assert (trim ws = EmptyString) as Htrim.
  { unfold trim. rewrite <- (append_empty_r ws).
    now rewrite (skip_space_blanks _ _ (blanks_space _ Hws)). }
  pose proof (rx_line_nonempty _ _ _ Hrx) as Hne.
  pose proof (read_until_line ws rest (blanks_one_line _ Hws)) as R.
  rewrite <- Hrx in R. cbv zeta.
  rewrite (processCommands_unknown _ _ _ Hne R) by now rewrite Htrim.
  rewrite Htrim. cbn. rewrite !append_assoc. now repeat split.
Qed.

Lemma blank_line_is_reported_unknown_witness :
  SerialBT_tx (processCommands (with_rx (String "013" LF))) = [] /\
  Serial_out (processCommands (with_rx (String "013" LF)))
  = "Unknown command received: " ++ CRLF.
Proof.
  pose proof (blank_line_is_reported_unknown (String "013" EmptyString)
                (with_rx (String "013" LF)) [] eq_refl eq_refl)
    as (A & B & _).
  split; [exact B | exact A].
Defined.

Lemma processCommands_reply w :
  (SerialBT_tx (processCommands w) = SerialBT_tx w /\
   servo_writes (processCommands w) = servo_writes w /\
   currentServoAngle (processCommands w) = currentServoAngle w)
  \/ (SerialBT_tx (processCommands w)
      = (SerialBT_tx w
           ++ acknowledgment (currentServoAngle (processCommands w)))%list /\
      servo_writes (processCommands w)
      = (servo_writes w ++ [currentServoAngle (processCommands w)])%list /\
      0 <= currentServoAngle (processCommands w) <= 180).
Proof.
  destruct (SerialBT_rx w) as [|b rx] eqn:E.
  - left. now rewrite (processCommands_nothing w E).
  - assert (SerialBT_rx w <> []) as Hne by (rewrite E; discriminate).
    destruct (read_until newline (SerialBT_rx w)) as [line rest] eqn:R.
    destruct (startsWith (trim line) "S14:") eqn:S.
    + right. pose proof S as S'.
      apply startsWith_iff in S' as [body Hbody].
      destruct (processCommands_S14 w line rest body Hne R Hbody)
        as (A & B & C & _).
      rewrite A. split; [exact C|]. split; [exact B|].
      apply constrain_range.
    + left. now rewrite (processCommands_unknown _ _ _ Hne R S).
Qed.

(** X14: whatever the buffer holds, a cycle with a successful capture
    writes the frame in one piece at the end of what it sends, and at most
    one acknowledgment before it.  When an acknowledgment is sent it
    carries the value [currentServoAngle] has afterwards, which lies in
    0..180 and is the angle just written to the servo; otherwise angle
    and servo are as before. *)
Theorem cycle_sends_reply_then_frame (fb : camera_fb_t) (w : World) :
  let w' := loop (active (Some fb)) w in
  (SerialBT_tx w' = (SerialBT_tx w ++ frame_bytes fb)%list /\
   servo_writes w' = servo_writes w /\
   currentServoAngle w' = currentServoAngle w)
  \/ (SerialBT_tx w'
      = (SerialBT_tx w ++ acknowledgment (currentServoAngle w')
           ++ frame_bytes fb)%list /\
      servo_writes w' = (servo_writes w ++ [currentServoAngle w'])%list /\
      0 <= currentServoAngle w' <= 180).
Proof.
  cbv zeta.
  destruct (loop_frame_effect fb w) as (Fa & Fw & _ & Ftx & _).
  rewrite Fa, Fw, Ftx.
  destruct (processCommands_reply w) as [(A & B & C) | (A & B & C)].
  - left. now rewrite A, B, C.
  - right. rewrite A, B, <- app_assoc. now repeat split.
Qed.

End Sketch.
